(** * Mixboard: the StagelinQ state manager (stagelinq-manager.js)

    A shallow embedding of the state-reduction core of [StagelinqManager]:
    the empty state, the player-status merger, the raw path dispatcher, the
    deck and mixer reducers and [stop].

    JavaScript values are dynamically typed, so the embedding carries a type
    [val] of values and the language's coercions (ToBoolean, ToNumber,
    ToString, [parseFloat], [parseInt]).  Numbers are IEEE-754 binary64, the
    kernel's primitive [float].  The text-to-number routines of the host
    language are not part of the repository: they are the fields of the
    class [Host], and every definition and theorem is stated for an arbitrary
    host. *)

From Stdlib Require Import ZArith Floats String Ascii DecimalString List Bool Lia.
From stdpp Require Import base option list gmap strings pretty.

Local Open Scope string_scope.
Local Open Scope Z_scope.

(** ** Numbers *)

Module Num.

(** ToBoolean on a number: [0], [-0] and [NaN] are falsy. *)
Definition truthy (n : float) : bool :=
  negb (PrimFloat.is_zero n || PrimFloat.is_nan n).

(** [a > b] on numbers. *)
Definition gt (a b : float) : bool := PrimFloat.ltb b a.

(** [n || d] on numbers. *)
Definition or_else (n d : float) : float := if truthy n then n else d.

(** The integer a number denotes, when it denotes one.  A property access
    [o[n]] looks up the key [String(n)]; for the integer-keyed tables of
    this program ([KEY_MAP], [state.decks]) that key is found exactly when
    [n] is one of the integers of the table ([-0] prints as ["0"]). *)
Definition to_Z (n : float) : option Z :=
  match Prim2SF n with
  | S754_zero _ => Some 0
  | S754_finite s m e =>
      let mag :=
        if 0 <=? e then Some (Z.pos m * 2 ^ e)
        else if Z.pos m mod 2 ^ (- e) =? 0 then Some (Z.pos m / 2 ^ (- e))
        else None in
      (fun z => if s then - z else z) <$> mag
  | S754_infinity _ | S754_nan => None
  end.

(** An integer as a number, by its binary digits (exact below [2^53]). *)
Fixpoint of_pos (p : positive) : float :=
  match p with
  | xH => 1%float
  | xO q => PrimFloat.mul 2%float (of_pos q)
  | xI q => PrimFloat.add (PrimFloat.mul 2%float (of_pos q)) 1%float
  end.

Definition of_Z (z : Z) : float :=
  match z with
  | Z0 => 0%float
  | Zpos p => of_pos p
  | Zneg p => PrimFloat.opp (of_pos p)
  end.

End Num.

(** ** The host language *)

Class Host := {
  (** opaque objects (hotcue descriptors, jog colours, JSON payloads) *)
  obj : Type;
  (** ToPrimitive of an ordinary object: its string form *)
  obj_to_string : obj -> string;
  (** Number::toString *)
  num_to_string : float -> string;
  (** [parseFloat] on a string *)
  parseFloat_str : string -> float;
  (** [parseInt] on a string, radix absent *)
  parseInt_str : string -> float;
  (** StringToNumber, the string case of ToNumber *)
  str_to_num : string -> float;
}.

(** ** Strings: the operations the dispatcher uses *)

Module Str.

(** [s.startsWith(p)], returning the remainder. *)
Fixpoint strip_prefix (p s : string) : option string :=
  match p, s with
  | EmptyString, _ => Some s
  | String a p', String b s' => if Ascii.eqb a b then strip_prefix p' s' else None
  | String _ _, EmptyString => None
  end.

(** Leftmost position at which [f] succeeds: an unanchored regular
    expression is tried at every start index in turn. *)
Fixpoint search {A} (f : string -> option A) (s : string) : option A :=
  match f s with
  | Some r => Some r
  | None => match s with
            | EmptyString => None
            | String _ s' => search f s'
            end
  end.

(** [s.includes(needle)] *)
Definition includes (needle s : string) : bool :=
  match search (strip_prefix needle) s with Some _ => true | None => false end.

(** [s.replace(needle, repl)] with a string pattern: the first occurrence
    only. *)
Fixpoint replace_first (needle repl s : string) : string :=
  match strip_prefix needle s with
  | Some rest => repl +:+ rest
  | None => match s with
            | EmptyString => EmptyString
            | String c s' => String c (replace_first needle repl s')
            end
  end.

(** A line terminator at the head of [s]: LF, CR, or the UTF-8 bytes of
    U+2028 and U+2029. *)
Definition at_line_terminator (s : string) : bool :=
  match s with
  | String c rest =>
      if Ascii.eqb c "010"%char || Ascii.eqb c "013"%char then true
      else match strip_prefix (String "226"%char (String "128"%char EmptyString)) s with
           | Some (String d _) => Ascii.eqb d "168"%char || Ascii.eqb d "169"%char
           | _ => false
           end
  | EmptyString => false
  end.

(** The capture of a trailing dot-star group: greedy, up to the first
    line terminator. *)
Fixpoint dot_star (s : string) : string :=
  if at_line_terminator s then EmptyString
  else match s with
       | EmptyString => EmptyString
       | String c s' => String c (dot_star s')
       end.

(** [\d] and the value [parseInt] gives to that one digit. *)
Definition digit (c : ascii) : option Z :=
  let n := Z.of_N (N_of_ascii c) in
  if (48 <=? n) && (n <=? 57) then Some (n - 48) else None.

End Str.

Section Manager.

Context {host : Host}.

(** ** Values and coercions *)

Inductive val :=
| VUndef
| VNull
| VBool (b : bool)
| VNum (n : float)
| VStr (s : string)
| VObj (o : obj).

(** ToBoolean: what [if (v)], [!v], [!!v] and [v || w] test. *)
Definition truthy (v : val) : bool :=
  match v with
  | VUndef | VNull => false
  | VBool b => b
  | VNum n => Num.truthy n
  | VStr s => negb (String.eqb s "")
  | VObj _ => true
  end.

(** [a || b] *)
Definition or_else (a b : val) : val := if truthy a then a else b.

(** [v !== undefined] *)
Definition defined (v : val) : bool :=
  match v with VUndef => false | _ => true end.

(** [String(v)] *)
Definition ToString (v : val) : string :=
  match v with
  | VUndef => "undefined"
  | VNull => "null"
  | VBool b => if b then "true" else "false"
  | VNum n => num_to_string n
  | VStr s => s
  | VObj o => obj_to_string o
  end.

(** [Number(v)], also the coercion behind [v > 0]. *)
Definition ToNumber (v : val) : float :=
  match v with
  | VUndef => PrimFloat.nan
  | VNull => 0%float
  | VBool b => if b then 1%float else 0%float
  | VNum n => n
  | VStr s => str_to_num s
  | VObj o => str_to_num (obj_to_string o)
  end.

(** [v > 0] *)
Definition gt0 (v : val) : bool := Num.gt (ToNumber v) 0%float.

(** [parseFloat(v)] parses [String(v)].  On a number the text printed by
    Number::toString reads back as the same number, except that [-0] prints
    as ["0"]; ["undefined"], ["null"], ["true"] and ["false"] start with no
    numeral. *)
Definition parseFloat (v : val) : float :=
  match v with
  | VNum n => if PrimFloat.is_zero n then 0%float else n
  | VStr s => parseFloat_str s
  | VObj o => parseFloat_str (obj_to_string o)
  | VUndef | VNull | VBool _ => PrimFloat.nan
  end.

(** [parseInt(v)] parses [String(v)]. *)
Definition parseInt (v : val) : float :=
  match v with
  | VNum n => parseInt_str (num_to_string n)
  | VStr s => parseInt_str s
  | VObj o => parseInt_str (obj_to_string o)
  | VUndef | VNull | VBool _ => PrimFloat.nan
  end.

(** ** The state tree *)

Record Deck := {
  trackName : val; artistName : val; songName : val;
  trackLength : float; trackUri : val; trackNetworkPath : val;
  sampleRate : float; songLoaded : bool; songAnalyzed : bool;
  artwork : val;
  play : bool; playState : bool; currentPosition : float;
  currentBPM : val; trackBPM : val;
  speed : val; speedRange : float;
  syncMode : val; deckIsMaster : bool; masterTempo : val;
  currentKeyIndex : float; currentKey : string; keyLock : bool;
  externalScratchWheelTouch : bool; externalMixerVolume : val;
  cuePosition : float; cuePositionRaw : float;
  loopEnableState : bool; currentLoopInPosition : float;
  currentLoopOutPosition : float; currentLoopSizeInBeats : float;
  trackLengthRaw : float; loopInRaw : float; loopOutRaw : float;
  beatPosition : val; totalBeats : val;
  dbSourceName : val; trackPath : val; jogColor : val;
  (** [deck.hotcues]: absent until the first hotcue arrives, then an object
      keyed by hotcue index *)
  hotcues : option (gmap Z val);
}.

Record Mixer := {
  ch1Fader : float; ch2Fader : float; ch3Fader : float; ch4Fader : float;
  crossfader : float;
}.

Record Device := {
  name : val; ip : val; softwareName : val; softwareVersion : val;
  connectionState : string; deckCount : float;
  hasSDCard : bool; hasUsb : bool; activeDeck : float;
}.

Record State := {
  decks : gmap Z Deck;
  mixer : Mixer;
  device : Device;
}.

(** Field assignment.  [deck.f = v] rebuilds the record with the one field
    replaced; the setters are read off the eta-expansion of the record. *)
Definition Deck_eta (d : Deck) : Deck :=
  Build_Deck (trackName d) (artistName d) (songName d)
    (trackLength d) (trackUri d) (trackNetworkPath d)
    (sampleRate d) (songLoaded d) (songAnalyzed d)
    (artwork d)
    (play d) (playState d) (currentPosition d)
    (currentBPM d) (trackBPM d)
    (speed d) (speedRange d)
    (syncMode d) (deckIsMaster d) (masterTempo d)
    (currentKeyIndex d) (currentKey d) (keyLock d)
    (externalScratchWheelTouch d) (externalMixerVolume d)
    (cuePosition d) (cuePositionRaw d)
    (loopEnableState d) (currentLoopInPosition d)
    (currentLoopOutPosition d) (currentLoopSizeInBeats d)
    (trackLengthRaw d) (loopInRaw d) (loopOutRaw d)
    (beatPosition d) (totalBeats d)
    (dbSourceName d) (trackPath d) (jogColor d)
    (hotcues d).

Definition Mixer_eta (m : Mixer) : Mixer :=
  Build_Mixer (ch1Fader m) (ch2Fader m) (ch3Fader m) (ch4Fader m) (crossfader m).

Definition Device_eta (d : Device) : Device :=
  Build_Device (name d) (ip d) (softwareName d) (softwareVersion d)
    (connectionState d) (deckCount d) (hasSDCard d) (hasUsb d) (activeDeck d).

Definition State_eta (s : State) : State :=
  Build_State (decks s) (mixer s) (device s).

Ltac assign eta field :=
  let v := fresh "v" in
  let r := fresh "r" in
  intros v r;
  let e := eval cbv beta delta [eta] in (eta r) in
  lazymatch e with
  | context C [field r] => let e' := context C [v] in exact e'
  end.

Definition set_trackName : val -> Deck -> Deck.
Proof. assign Deck_eta trackName. Defined.
Definition set_artistName : val -> Deck -> Deck.
Proof. assign Deck_eta artistName. Defined.
Definition set_songName : val -> Deck -> Deck.
Proof. assign Deck_eta songName. Defined.
Definition set_trackLength : float -> Deck -> Deck.
Proof. assign Deck_eta trackLength. Defined.
Definition set_trackUri : val -> Deck -> Deck.
Proof. assign Deck_eta trackUri. Defined.
Definition set_trackNetworkPath : val -> Deck -> Deck.
Proof. assign Deck_eta trackNetworkPath. Defined.
Definition set_sampleRate : float -> Deck -> Deck.
Proof. assign Deck_eta sampleRate. Defined.
Definition set_songLoaded : bool -> Deck -> Deck.
Proof. assign Deck_eta songLoaded. Defined.
Definition set_songAnalyzed : bool -> Deck -> Deck.
Proof. assign Deck_eta songAnalyzed. Defined.
Definition set_play : bool -> Deck -> Deck.
Proof. assign Deck_eta play. Defined.
Definition set_playState : bool -> Deck -> Deck.
Proof. assign Deck_eta playState. Defined.
Definition set_currentPosition : float -> Deck -> Deck.
Proof. assign Deck_eta currentPosition. Defined.
Definition set_currentBPM : val -> Deck -> Deck.
Proof. assign Deck_eta currentBPM. Defined.
Definition set_trackBPM : val -> Deck -> Deck.
Proof. assign Deck_eta trackBPM. Defined.
Definition set_speed : val -> Deck -> Deck.
Proof. assign Deck_eta speed. Defined.
Definition set_speedRange : float -> Deck -> Deck.
Proof. assign Deck_eta speedRange. Defined.
Definition set_syncMode : val -> Deck -> Deck.
Proof. assign Deck_eta syncMode. Defined.
Definition set_deckIsMaster : bool -> Deck -> Deck.
Proof. assign Deck_eta deckIsMaster. Defined.
Definition set_masterTempo : val -> Deck -> Deck.
Proof. assign Deck_eta masterTempo. Defined.
Definition set_currentKeyIndex : float -> Deck -> Deck.
Proof. assign Deck_eta currentKeyIndex. Defined.
Definition set_currentKey : string -> Deck -> Deck.
Proof. assign Deck_eta currentKey. Defined.
Definition set_keyLock : bool -> Deck -> Deck.
Proof. assign Deck_eta keyLock. Defined.
Definition set_externalScratchWheelTouch : bool -> Deck -> Deck.
Proof. assign Deck_eta externalScratchWheelTouch. Defined.
Definition set_externalMixerVolume : val -> Deck -> Deck.
Proof. assign Deck_eta externalMixerVolume. Defined.
Definition set_cuePosition : float -> Deck -> Deck.
Proof. assign Deck_eta cuePosition. Defined.
Definition set_cuePositionRaw : float -> Deck -> Deck.
Proof. assign Deck_eta cuePositionRaw. Defined.
Definition set_loopEnableState : bool -> Deck -> Deck.
Proof. assign Deck_eta loopEnableState. Defined.
Definition set_currentLoopInPosition : float -> Deck -> Deck.
Proof. assign Deck_eta currentLoopInPosition. Defined.
Definition set_currentLoopOutPosition : float -> Deck -> Deck.
Proof. assign Deck_eta currentLoopOutPosition. Defined.
Definition set_currentLoopSizeInBeats : float -> Deck -> Deck.
Proof. assign Deck_eta currentLoopSizeInBeats. Defined.
Definition set_trackLengthRaw : float -> Deck -> Deck.
Proof. assign Deck_eta trackLengthRaw. Defined.
Definition set_loopInRaw : float -> Deck -> Deck.
Proof. assign Deck_eta loopInRaw. Defined.
Definition set_loopOutRaw : float -> Deck -> Deck.
Proof. assign Deck_eta loopOutRaw. Defined.
Definition set_dbSourceName : val -> Deck -> Deck.
Proof. assign Deck_eta dbSourceName. Defined.
Definition set_trackPath : val -> Deck -> Deck.
Proof. assign Deck_eta trackPath. Defined.
Definition set_jogColor : val -> Deck -> Deck.
Proof. assign Deck_eta jogColor. Defined.
Definition set_hotcues : option (gmap Z val) -> Deck -> Deck.
Proof. assign Deck_eta hotcues. Defined.

Definition set_ch1Fader : float -> Mixer -> Mixer.
Proof. assign Mixer_eta ch1Fader. Defined.
Definition set_ch2Fader : float -> Mixer -> Mixer.
Proof. assign Mixer_eta ch2Fader. Defined.
Definition set_ch3Fader : float -> Mixer -> Mixer.
Proof. assign Mixer_eta ch3Fader. Defined.
Definition set_ch4Fader : float -> Mixer -> Mixer.
Proof. assign Mixer_eta ch4Fader. Defined.
Definition set_crossfader : float -> Mixer -> Mixer.
Proof. assign Mixer_eta crossfader. Defined.

Definition set_name : val -> Device -> Device.
Proof. assign Device_eta name. Defined.
Definition set_ip : val -> Device -> Device.
Proof. assign Device_eta ip. Defined.
Definition set_deckCount : float -> Device -> Device.
Proof. assign Device_eta deckCount. Defined.
Definition set_hasSDCard : bool -> Device -> Device.
Proof. assign Device_eta hasSDCard. Defined.
Definition set_hasUsb : bool -> Device -> Device.
Proof. assign Device_eta hasUsb. Defined.
Definition set_activeDeck : float -> Device -> Device.
Proof. assign Device_eta activeDeck. Defined.

Definition set_decks : gmap Z Deck -> State -> State.
Proof. assign State_eta decks. Defined.
Definition set_mixer : Mixer -> State -> State.
Proof. assign State_eta mixer. Defined.
Definition set_device : Device -> State -> State.
Proof. assign State_eta device. Defined.

(** ** The key table and the empty state *)

(** [KEY_MAP]: key index to musical key (Camelot / Open Key notation). *)
Definition KEY_MAP : gmap Z string :=
  list_to_map
    [ (0, "1A (A♭m)"); (1, "1B (B)"); (2, "2A (E♭m)"); (3, "2B (F♯)");
      (4, "3A (B♭m)"); (5, "3B (D♭)"); (6, "4A (Fm)"); (7, "4B (A♭)");
      (8, "5A (Cm)"); (9, "5B (E♭)"); (10, "6A (Gm)"); (11, "6B (B♭)");
      (12, "7A (Dm)"); (13, "7B (F)"); (14, "8A (Am)"); (15, "8B (C)");
      (16, "9A (Em)"); (17, "9B (G)"); (18, "10A (Bm)"); (19, "10B (D)");
      (20, "11A (F♯m)"); (21, "11B (A)"); (22, "12A (D♭m)"); (23, "12B (E)") ].

(** [KEY_MAP[i] || ''] at an integer index. *)
Definition keyLabel (i : Z) : string := default "" (KEY_MAP !! i).

(** [KEY_MAP[n] || ''] at a number: a number that is no integer spells no
    key of the table. *)
Definition keyLabelOf (n : float) : string :=
  match Num.to_Z n with
  | Some i => keyLabel i
  | None => ""
  end.

Definition emptyDeck : Deck := {|
  trackName := VStr ""; artistName := VStr ""; songName := VStr "";
  trackLength := 0%float; trackUri := VStr ""; trackNetworkPath := VStr "";
  sampleRate := 0%float; songLoaded := false; songAnalyzed := false;
  artwork := VNull;
  play := false; playState := false; currentPosition := 0%float;
  currentBPM := VNum 0%float; trackBPM := VNum 0%float;
  speed := VNum 0%float; speedRange := 0%float;
  syncMode := VNum 0%float; deckIsMaster := false; masterTempo := VNum 0%float;
  currentKeyIndex := (-1)%float; currentKey := ""; keyLock := false;
  externalScratchWheelTouch := false; externalMixerVolume := VNum 0%float;
  cuePosition := 0%float; cuePositionRaw := 0%float;
  loopEnableState := false; currentLoopInPosition := 0%float;
  currentLoopOutPosition := 0%float; currentLoopSizeInBeats := 0%float;
  trackLengthRaw := 0%float; loopInRaw := 0%float; loopOutRaw := 0%float;
  beatPosition := VNum 0%float; totalBeats := VNum 0%float;
  dbSourceName := VStr ""; trackPath := VStr ""; jogColor := VNull;
  hotcues := None;
|}.

Definition _createEmptyState : State := {|
  decks := list_to_map [(1, emptyDeck); (2, emptyDeck); (3, emptyDeck); (4, emptyDeck)];
  mixer := {| ch1Fader := 0%float; ch2Fader := 0%float; ch3Fader := 0%float;
              ch4Fader := 0%float; crossfader := 0.5%float |};
  device := {| name := VStr ""; ip := VStr ""; softwareName := VStr "";
               softwareVersion := VStr "";
               connectionState := "disconnected"; deckCount := 2%float;
               hasSDCard := false; hasUsb := false; activeDeck := 1%float |};
|}.

(** ** The player-status merger *)

(** A status object; reading a property it lacks gives [undefined]. *)
Definition prop (o : gmap string val) (k : string) : val := default VUndef (o !! k).

(** [n || null] for a number. *)
Definition or_null (n : float) : option float :=
  if Num.truthy n then Some n else None.

(** The literal table of [_resolveDeckNumber]. *)
Definition deckLetters : gmap string float :=
  list_to_map
    [ ("A", 1%float); ("B", 2%float); ("C", 3%float); ("D", 4%float);
      ("1", 1%float); ("2", 2%float); ("3", 3%float); ("4", 4%float) ].

(** [_resolveDeckNumber(status)].  [None] is [null].  A key that the table
    only inherits (["constructor"], ["toString"], ...) yields an object of
    the host that names no deck slot, so the caller drops the update just as
    it does for [null]; the embedding answers [None] for it too. *)
Definition _resolveDeckNumber (status : gmap string val) : option float :=
  if truthy (prop status "deck") then
    match deckLetters !! ToString (prop status "deck") with
    | Some n => or_null n
    | None => None
    end
  else if truthy (prop status "player") then
    or_null (parseInt (prop status "player"))
  else None.

(** [if (c) f(deck)] *)
Definition when (c : bool) (f : Deck -> Deck) (deck : Deck) : Deck :=
  if c then f deck else deck.

(** The template literal that names the i-th hotcue property. *)
Definition hotcueKey (i : Z) : string := "hotcue" +:+ pretty i.

(** One turn of the hotcue loop. *)
Definition hotcueStep (status : gmap string val) (deck : Deck) (i : Z) : Deck :=
  let h := prop status (hotcueKey i) in
  if truthy h then
    let hs := match hotcues deck with Some hs => hs | None => ∅ end in
    set_hotcues (Some (<[i := h]> hs)) deck
  else deck.

(** The field assignments of [_applyPlayerStatus] on the resolved deck, in
    source order. *)
Definition mergeStatus (status : gmap string val) (deck : Deck) : Deck :=
  let f := prop status in
  let deck := when (defined (f "title")) (set_trackName (or_else (f "title") (VStr ""))) deck in
  let deck := when (defined (f "title")) (set_songName (or_else (f "title") (VStr ""))) deck in
  let deck := when (defined (f "artist")) (set_artistName (or_else (f "artist") (VStr ""))) deck in
  let deck := when (defined (f "songLoaded")) (set_songLoaded (truthy (f "songLoaded"))) deck in
  let deck := when (defined (f "play")) (set_play (truthy (f "play"))) deck in
  let deck := when (defined (f "playState")) (set_playState (truthy (f "playState"))) deck in
  let deck := when (defined (f "currentBpm") && gt0 (f "currentBpm"))
                (set_currentBPM (f "currentBpm")) deck in
  let deck := when (defined (f "trackBpm") && gt0 (f "trackBpm"))
                (set_trackBPM (f "trackBpm")) deck in
  let deck := when (defined (f "speed")) (set_speed (f "speed")) deck in
  let deck := when (defined (f "syncMode")) (set_syncMode (f "syncMode")) deck in
  let deck := when (defined (f "masterStatus")) (set_deckIsMaster (truthy (f "masterStatus"))) deck in
  let deck := when (defined (f "masterTempo")) (set_masterTempo (f "masterTempo")) deck in
  let deck := when (defined (f "externalMixerVolume"))
                (set_externalMixerVolume (f "externalMixerVolume")) deck in
  let deck := when (defined (f "trackNetworkPath"))
                (set_trackNetworkPath (or_else (f "trackNetworkPath") (VStr ""))) deck in
  let deck := when (defined (f "trackPath"))
                (fun d => set_trackUri (or_else (f "trackPath") (VStr ""))
                            (set_trackPath (or_else (f "trackPath") (VStr "")) d)) deck in
  let deck := when (defined (f "fileLocation"))
                (fun d => set_trackUri (or_else (f "fileLocation") (trackUri d)) d) deck in
  let deck := when (defined (f "dbSourceName"))
                (set_dbSourceName (or_else (f "dbSourceName") (VStr ""))) deck in
  let deck := when (defined (f "jogColor")) (set_jogColor (f "jogColor")) deck in
  foldl (hotcueStep status) deck (seqZ 1 8).

(** The device refresh that ends [_applyPlayerStatus]. *)
Definition mergeDevice (status : gmap string val) (dev : Device) : Device :=
  let dev := if truthy (prop status "address") then set_ip (prop status "address") dev else dev in
  if truthy (prop status "source") then set_name (prop status "source") dev else dev.

(** [_applyPlayerStatus(status)]; [None] is a missing status object. *)
Definition _applyPlayerStatus (st : State) (status : option (gmap string val)) : State :=
  match status with
  | None => st
  | Some status =>
      match _resolveDeckNumber status with
      | None => st
      | Some deckNum =>
          match Num.to_Z deckNum with
          | None => st
          | Some k =>
              match decks st !! k with
              | None => st
              | Some deck =>
                  let st := set_decks (<[k := mergeStatus status deck]> (decks st)) st in
                  set_device (mergeDevice status (device st)) st
              end
          end
      end
  end.

(** The deck a status object addresses: its slot number and its record. *)
Definition targetDeck (st : State) (status : gmap string val) : option (Z * Deck) :=
  n ← _resolveDeckNumber status;
  k ← Num.to_Z n;
  d ← decks st !! k;
  Some (k, d).

(** Reading [deck.hotcues[i]] when [deck.hotcues] may be absent. *)
Definition hotcueAt (deck : Deck) (i : Z) : option val :=
  hs ← hotcues deck; hs !! i.

(** ** The deck reducer *)

(** The [case] labels of [_applyRawDeckState]. *)
Inductive Field :=
| ArtistName | SongName | TrackName | TrackLength | TrackUri | TrackNetworkPath
| SampleRate | SongLoaded | SongAnalyzed | Play | PlayState | PlayStatePath
| CurrentBPM | TrackBPM | Speed | SpeedRange | SyncMode | DeckIsMaster
| MasterTempo | CurrentKeyIndex | KeyLock | ExternalScratchWheelTouch
| ExternalMixerVolume | CuePosition | LoopEnableState | CurrentLoopInPosition
| CurrentLoopOutPosition | CurrentLoopSizeInBeats.

Definition fieldNames : list (string * Field) :=
  [ ("ArtistName", ArtistName); ("SongName", SongName); ("TrackName", TrackName);
    ("TrackLength", TrackLength); ("TrackUri", TrackUri);
    ("TrackNetworkPath", TrackNetworkPath); ("SampleRate", SampleRate);
    ("SongLoaded", SongLoaded); ("SongAnalyzed", SongAnalyzed); ("Play", Play);
    ("PlayState", PlayState); ("PlayStatePath", PlayStatePath);
    ("CurrentBPM", CurrentBPM); ("TrackBPM", TrackBPM); ("Speed", Speed);
    ("SpeedRange", SpeedRange); ("SyncMode", SyncMode);
    ("DeckIsMaster", DeckIsMaster); ("MasterTempo", MasterTempo);
    ("CurrentKeyIndex", CurrentKeyIndex); ("KeyLock", KeyLock);
    ("ExternalScratchWheelTouch", ExternalScratchWheelTouch);
    ("ExternalMixerVolume", ExternalMixerVolume); ("CuePosition", CuePosition);
    ("LoopEnableState", LoopEnableState);
    ("CurrentLoopInPosition", CurrentLoopInPosition);
    ("CurrentLoopOutPosition", CurrentLoopOutPosition);
    ("CurrentLoopSizeInBeats", CurrentLoopSizeInBeats) ].

(** Which [case] a key selects; [None] falls out of the [switch]. *)
Definition fieldOf (key : string) : option Field :=
  snd <$> find (fun p => String.eqb (fst p) key) fieldNames.

(** [String(value || '')] *)
Definition text (value : val) : val := VStr (ToString (or_else value (VStr ""))).

(** [parseFloat(value) || 0] *)
Definition float0 (value : val) : float := Num.or_else (parseFloat value) 0%float.

(** [deck.sampleRate > 0 ? raw / deck.sampleRate : 0] *)
Definition seconds (deck : Deck) (raw : float) : float :=
  if Num.gt (sampleRate deck) 0%float then PrimFloat.div raw (sampleRate deck) else 0%float.

(** The body of one [case] on the deck object. *)
Definition applyField (f : Field) (value : val) (deck : Deck) : Deck :=
  match f with
  | ArtistName => set_artistName (text value) deck
  | SongName => set_trackName (text value) (set_songName (text value) deck)
  | TrackName => set_trackUri (text value) deck
  | TrackLength =>
      let deck := set_trackLengthRaw (float0 value) deck in
      set_trackLength (seconds deck (trackLengthRaw deck)) deck
  | TrackUri => set_trackUri (text value) deck
  | TrackNetworkPath => set_trackNetworkPath (text value) deck
  | SampleRate =>
      let deck := set_sampleRate (Num.or_else (parseInt value) 0%float) deck in
      if Num.gt (sampleRate deck) 0%float then
        let deck := when (Num.truthy (trackLengthRaw deck))
                      (fun d => set_trackLength (PrimFloat.div (trackLengthRaw d) (sampleRate d)) d) deck in
        let deck := when (Num.truthy (cuePositionRaw deck))
                      (fun d => set_cuePosition (PrimFloat.div (cuePositionRaw d) (sampleRate d)) d) deck in
        let deck := when (Num.truthy (loopInRaw deck))
                      (fun d => set_currentLoopInPosition (PrimFloat.div (loopInRaw d) (sampleRate d)) d) deck in
        when (Num.truthy (loopOutRaw deck))
          (fun d => set_currentLoopOutPosition (PrimFloat.div (loopOutRaw d) (sampleRate d)) d) deck
      else deck
  | SongLoaded => set_songLoaded (truthy value) deck
  | SongAnalyzed => set_songAnalyzed (truthy value) deck
  | Play => set_play (truthy value) deck
  | PlayState => set_playState (truthy value) deck
  | PlayStatePath =>
      let pathVal := float0 value in
      if PrimFloat.leb 0%float pathVal && PrimFloat.leb pathVal 1%float
         && Num.gt (trackLength deck) 0%float then
        set_currentPosition (PrimFloat.mul pathVal (trackLength deck)) deck
      else if Num.gt pathVal 1%float then
        set_currentPosition (seconds deck pathVal) deck
      else deck
  | CurrentBPM => set_currentBPM (VNum (float0 value)) deck
  | TrackBPM => set_trackBPM (VNum (float0 value)) deck
  | Speed => set_speed (VNum (float0 value)) deck
  | SpeedRange => set_speedRange (float0 value) deck
  | SyncMode => set_syncMode (VNum (Num.or_else (parseInt value) 0%float)) deck
  | DeckIsMaster => set_deckIsMaster (truthy value) deck
  | MasterTempo => set_masterTempo (VNum (float0 value)) deck
  | CurrentKeyIndex =>
      let deck := set_currentKeyIndex (parseInt value) deck in
      set_currentKey (keyLabelOf (currentKeyIndex deck)) deck
  | KeyLock =>
      set_keyLock (match value with VBool true => true | _ => gt0 value end) deck
  | ExternalScratchWheelTouch => set_externalScratchWheelTouch (truthy value) deck
  | ExternalMixerVolume => set_externalMixerVolume (VNum (float0 value)) deck
  | CuePosition =>
      let deck := set_cuePositionRaw (float0 value) deck in
      set_cuePosition (seconds deck (cuePositionRaw deck)) deck
  | LoopEnableState => set_loopEnableState (truthy value) deck
  | CurrentLoopInPosition =>
      let deck := set_loopInRaw (float0 value) deck in
      set_currentLoopInPosition (seconds deck (loopInRaw deck)) deck
  | CurrentLoopOutPosition =>
      let deck := set_loopOutRaw (float0 value) deck in
      set_currentLoopOutPosition (seconds deck (loopOutRaw deck)) deck
  | CurrentLoopSizeInBeats => set_currentLoopSizeInBeats (float0 value) deck
  end.

(** Whether a [case] reaches a property of [deck]; every one does, except
    [PlayStatePath] when its number passes neither test. *)
Definition touchesDeck (f : Field) (value : val) : bool :=
  match f with
  | PlayStatePath =>
      let pathVal := float0 value in
      (PrimFloat.leb 0%float pathVal && PrimFloat.leb pathVal 1%float)
      || Num.gt pathVal 1%float
  | _ => true
  end.

(** [_applyRawDeckState(deckNum, key, value)].  [None] is the TypeError of
    reaching a property of an absent deck; both callers test the slot
    first. *)
Definition _applyRawDeckState (st : State) (deckNum : Z) (key : string) (value : val)
  : option State :=
  match fieldOf key with
  | None => Some st
  | Some f =>
      match decks st !! deckNum with
      | Some deck => Some (set_decks (<[deckNum := applyField f value deck]> (decks st)) st)
      | None => if touchesDeck f value then None else Some st
      end
  end.

(** The sample-domain keys, each with the seconds field derived from it. *)
Definition sampleFields : list (string * (Deck -> float)) :=
  [ ("TrackLength", trackLength); ("CuePosition", cuePosition);
    ("CurrentLoopInPosition", currentLoopInPosition);
    ("CurrentLoopOutPosition", currentLoopOutPosition) ].

(** ** The mixer reducer *)

Definition applyMixerField (key : string) (value : val) (m : Mixer) : Mixer :=
  if String.eqb key "CH1faderPosition" then set_ch1Fader (float0 value) m
  else if String.eqb key "CH2faderPosition" then set_ch2Fader (float0 value) m
  else if String.eqb key "CH3faderPosition" then set_ch3Fader (float0 value) m
  else if String.eqb key "CH4faderPosition" then set_ch4Fader (float0 value) m
  else if String.eqb key "CrossfaderPosition" then set_crossfader (float0 value) m
  else m.

(** [_applyMixerState(key, value)] *)
Definition _applyMixerState (st : State) (key : string) (value : val) : State :=
  set_mixer (applyMixerField key value (mixer st)) st.

(** ** The path dispatcher *)

(** One attempt of a deck pattern at the head of [s]: the namespace text, one
    digit, a slash, and the rest of the line. *)
Definition deckPathAt (ns s : string) : option (Z * string) :=
  match Str.strip_prefix ns s with
  | Some (String c (String "/"%char rest)) =>
      (fun n => (n, Str.dot_star rest)) <$> Str.digit c
  | _ => None
  end.

(** The engine deck pattern: "/Engine/Deck", a digit, "/", the rest. *)
Definition matchEngineDeck : string -> option (Z * string) :=
  Str.search (deckPathAt "/Engine/Deck").

(** The client deck pattern: "/Client/Deck", a digit, "/", the rest. *)
Definition matchClientDeck : string -> option (Z * string) :=
  Str.search (deckPathAt "/Client/Deck").

(** The mixer pattern: "/Mixer/" and the rest. *)
Definition matchMixer : string -> option string :=
  Str.search (fun s => Str.dot_star <$> Str.strip_prefix "/Mixer/" s).

(** [if (this.state.decks[deckNum]) this._applyRawDeckState(deckNum, key, value)] *)
Definition guardedDeckUpdate (st : State) (deckNum : Z) (key : string) (value : val)
  : option State :=
  match decks st !! deckNum with
  | Some _ => _applyRawDeckState st deckNum key value
  | None => Some st
  end.

(** [parseInt(strVal...) || 1] of the active-deck branch. *)
Definition activeDeckOf (value : val) : float :=
  let strVal := ToString value in
  if Str.includes "Deck" strVal
  then Num.or_else (parseInt_str (Str.replace_first "Deck" "" strVal)) 1%float
  else Num.or_else (parseInt_str strVal) 1%float.

(** [_processRawStateChange(path, value)].  The two logging blocks write no
    state and are left out. *)
Definition _processRawStateChange (st : State) (path : string) (value : val)
  : option State :=
  if String.eqb path "" then Some st else
  match matchEngineDeck path with
  | Some (deckNum, key) =>
      let key := if String.eqb key "Track/CurrentBPM" then "TrackBPM"
                 else Str.replace_first "Track/" "" key in
      guardedDeckUpdate st deckNum key value
  | None =>
      match matchMixer path with
      | Some key => Some (_applyMixerState st key value)
      | None =>
          let st :=
            if Str.includes "DeckCount" path
            then set_device (set_deckCount (Num.or_else (parseInt value) 2%float) (device st)) st
            else st in
          match matchClientDeck path with
          | Some (deckNum, key) => guardedDeckUpdate st deckNum key value
          | None =>
              if String.eqb path "/Client/Librarian/DevicesController/HasSDCardConnected"
              then Some (set_device (set_hasSDCard (truthy value) (device st)) st)
              else if String.eqb path "/Client/Librarian/DevicesController/HasUsbDeviceConnected"
              then Some (set_device (set_hasUsb (truthy value) (device st)) st)
              else if String.eqb path "/GUI/Decks/Deck/ActiveDeck"
              then Some (set_device (set_activeDeck (activeDeckOf value) (device st)) st)
              else Some st
          end
      end
  end.

(** ** Reset *)

(** An entry of [discoveredDevices]. *)
Record Discovered := {
  d_ip : val; d_name : val; d_software : val; d_version : val;
  d_port : val; d_status : string; d_lastSeen : val;
}.

(** The fields of the manager that [stop] reads or writes.  The demo timer
    and the library instance are recorded by their presence. *)
Record ManagerState := {
  stagelinqInstance : bool;
  connected : bool;
  state : State;
  _demoInterval : bool;
  discoveredDevices : gmap string Discovered;
  _connectedIp : val;
}.

Inductive Event :=
| deviceDisconnected (deviceName ip : val)
| stateUpdate (s : State).

(** [stop()]: the new manager and the events it emits, in order.  The
    [await] of the library's [disconnect] is outside the repository; whatever
    it does, the assignments after it overwrite the fields listed here. *)
Definition stop (m : ManagerState) : ManagerState * list Event :=
  let wasConnected := connected m in
  let prevDevice := device (state m) in
  let m' := {| stagelinqInstance := false;
               connected := false;
               state := _createEmptyState;
               _demoInterval := false;
               discoveredDevices := ∅;
               _connectedIp := VNull |} in
  (m', app (if wasConnected then [deviceDisconnected (name prevDevice) (ip prevDevice)] else [])
            [stateUpdate (state m')]).

(** ** The other handlers of [start] *)

Definition set_connectionState : string -> Device -> Device.
Proof. assign Device_eta connectionState. Defined.
Definition set_beatPosition : val -> Deck -> Deck.
Proof. assign Deck_eta beatPosition. Defined.
Definition set_totalBeats : val -> Deck -> Deck.
Proof. assign Deck_eta totalBeats. Defined.

(** One entry of [beatData.decks] on its deck. *)
Definition applyBeat (deckBeat : gmap string val) (deck : Deck) : Deck :=
  let deck := set_beatPosition (or_else (prop deckBeat "beat") (VNum 0%float)) deck in
  let deck := set_totalBeats (or_else (prop deckBeat "totalBeats") (VNum 0%float)) deck in
  if truthy (prop deckBeat "samples") && Num.gt (sampleRate deck) 0%float
  then set_currentPosition
         (PrimFloat.div (ToNumber (prop deckBeat "samples")) (sampleRate deck)) deck
  else deck.

(** [beatData.decks.forEach((deckBeat, idx) => ...)] from index [idx] on. *)
Fixpoint beatLoop (st : State) (idx : Z) (beats : list (gmap string val)) : State :=
  match beats with
  | [] => st
  | deckBeat :: rest =>
      let deckNum := idx + 1 in
      let st := match decks st !! deckNum with
                | Some deck => set_decks (<[deckNum := applyBeat deckBeat deck]> (decks st)) st
                | None => st
                end in
      beatLoop st (idx + 1) rest
  end.

(** The [beatMessage] handler; [None] is beat data that is missing or has
    no [decks]. *)
Definition onBeatMessage (st : State) (beatData : option (list (gmap string val))) : State :=
  match beatData with
  | Some beats => beatLoop st 0 beats
  | None => st
  end.

(** The data of a raw [message]: its name, its [json] payload when that is
    truthy (the payload itself and its properties), and its plain value. *)
Record RawMessage := {
  msg_name : string;
  msg_json : option (val * gmap string val);
  msg_value : val;
}.

(** The value the [message] handler extracts from the payload. *)
Definition messageValue (data : RawMessage) : val :=
  match msg_json data with
  | Some (self, json) =>
      if defined (prop json "value") then prop json "value"
      else if defined (prop json "state") then prop json "state"
      else if defined (prop json "string") then prop json "string"
      else if defined (prop json "color") then prop json "color"
      else self
  | None => msg_value data
  end.

(** What the device emits, one constructor per handler that [start]
    registers on the state tree. *)
Inductive DeviceEvent :=
| trackLoaded (status : option (gmap string val))
| nowPlaying (status : option (gmap string val))
| stateChanged (status : option (gmap string val))
| message (data : RawMessage)
| beatMessage (beatData : option (list (gmap string val))).

(** One handler run on the state tree; [None] is an exception.  The
    [trackLoaded] and [nowPlaying] handlers read [status.deck] for their log
    line before the merger tests the status, which raises on a missing
    one. *)
Definition onEvent (st : State) (e : DeviceEvent) : option State :=
  match e with
  | trackLoaded status | nowPlaying status =>
      match status with
      | Some _ => Some (_applyPlayerStatus st status)
      | None => None
      end
  | stateChanged status => Some (_applyPlayerStatus st status)
  | message data =>
      if String.eqb (msg_name data) "" then Some st
      else _processRawStateChange st (msg_name data) (messageValue data)
  | beatMessage beatData => Some (onBeatMessage st beatData)
  end.

(** An event whose handler can read what it logs: [trackLoaded] and
    [nowPlaying] need a status. *)
Definition readable (e : DeviceEvent) : bool :=
  match e with
  | trackLoaded None | nowPlaying None => false
  | _ => true
  end.

(** The handlers run one after the other, as the events arrive. *)
Fixpoint onEvents (st : State) (es : list DeviceEvent) : option State :=
  match es with
  | [] => Some st
  | e :: rest => st' ← onEvent st e; onEvents st' rest
  end.

(** No mixer level is NaN. *)
Definition mixerDefined (m : Mixer) : bool :=
  negb (PrimFloat.is_nan (ch1Fader m) || PrimFloat.is_nan (ch2Fader m)
        || PrimFloat.is_nan (ch3Fader m) || PrimFloat.is_nan (ch4Fader m)
        || PrimFloat.is_nan (crossfader m)).

(** The fields of a deck that only the raw channel and the beat handler
    write. *)
Definition rawOnly (d : Deck) :=
  (trackLength d, sampleRate d, songAnalyzed d, speedRange d,
   currentKeyIndex d, currentKey d, keyLock d, externalScratchWheelTouch d,
   (cuePosition d, cuePositionRaw d, loopEnableState d,
    currentLoopInPosition d, currentLoopOutPosition d, currentLoopSizeInBeats d,
    trackLengthRaw d, loopInRaw d, loopOutRaw d)).

(** The fields of the device that the status merger leaves alone. *)
Definition deviceSettings (d : Device) :=
  (softwareName d, softwareVersion d, connectionState d, deckCount d,
   hasSDCard d, hasUsb d, activeDeck d).

(** The status properties that [_applyPlayerStatus] tests for presence. *)
Definition statusFields : list string :=
  [ "title"; "artist"; "songLoaded"; "play"; "playState"; "currentBpm";
    "trackBpm"; "speed"; "syncMode"; "masterStatus"; "masterTempo";
    "externalMixerVolume"; "trackNetworkPath"; "trackPath"; "fileLocation";
    "dbSourceName"; "jogColor" ].

(** ** How the handlers change a deck and the device *)

(** Every change a handler makes to one deck record. *)
Inductive DeckStep : Deck -> Deck -> Prop :=
| step_field (f : Field) (value : val) (d : Deck) : DeckStep d (applyField f value d)
| step_status (status : gmap string val) (d : Deck) : DeckStep d (mergeStatus status d)
| step_beat (deckBeat : gmap string val) (d : Deck) : DeckStep d (applyBeat deckBeat d).

(** Every change a handler makes to the device record. *)
Inductive DeviceStep : Device -> Device -> Prop :=
| step_deckCount (value : val) (dev : Device) :
    DeviceStep dev (set_deckCount (Num.or_else (parseInt value) 2%float) dev)
| step_hasSDCard (value : val) (dev : Device) :
    DeviceStep dev (set_hasSDCard (truthy value) dev)
| step_hasUsb (value : val) (dev : Device) :
    DeviceStep dev (set_hasUsb (truthy value) dev)
| step_activeDeck (value : val) (dev : Device) :
    DeviceStep dev (set_activeDeck (activeDeckOf value) dev)
| step_identity (status : gmap string val) (dev : Device) :
    DeviceStep dev (mergeDevice status dev).

(** ** Disconnecting one device *)

(** [v === s] for a string [s]. *)
Definition is_string (v : val) (s : string) : bool :=
  match v with
  | VStr t => String.eqb t s
  | _ => false
  end.

(** [dev.status = 'discovered'] *)
Definition markDiscovered (dev : Discovered) : Discovered :=
  {| d_ip := d_ip dev; d_name := d_name dev; d_software := d_software dev;
     d_version := d_version dev; d_port := d_port dev; d_status := "discovered";
     d_lastSeen := d_lastSeen dev |}.

(** [disconnectDevice(ip)] for an address given as text: the new manager and
    the events emitted.  The returned message is a constant and is left
    out. *)
Definition disconnectDevice (m : ManagerState) (address : string)
  : ManagerState * list Event :=
  let discovered :=
    match discoveredDevices m !! address with
    | Some dev => <[address := markDiscovered dev]> (discoveredDevices m)
    | None => discoveredDevices m
    end in
  if is_string (_connectedIp m) address || is_string (ip (device (state m))) address then
    let prevName := name (device (state m)) in
    let st := set_device (set_connectionState "disconnected" (device (state m))) (state m) in
    ({| stagelinqInstance := stagelinqInstance m;
        connected := false;
        state := st;
        _demoInterval := _demoInterval m;
        discoveredDevices := discovered;
        _connectedIp := VNull |},
     [deviceDisconnected prevName (VStr address); stateUpdate st])
  else
    ({| stagelinqInstance := stagelinqInstance m;
        connected := connected m;
        state := state m;
        _demoInterval := _demoInterval m;
        discoveredDevices := discovered;
        _connectedIp := _connectedIp m |}, []).

End Manager.

(** ** The device history (device-history.js)

    The in-memory list [this.devices]; each entry is an object, read by
    property name.  The address and the device name of a request are text,
    and the clock reading of [upsert] is an argument.  Writing the list to
    its file is outside the embedding. *)

Section DeviceHistory.

Context {host : Host}.

(** [d.ip === ip && d.deviceName === deviceName] *)
Definition sameDevice (address deviceName : string) (d : gmap string val) : bool :=
  is_string (prop d "ip") address && is_string (prop d "deviceName") deviceName.

(** The [entry] object that [upsert] builds. *)
Definition historyEntry (address deviceName : string) (softwareName softwareVersion : val)
    (now : string) : gmap string val :=
  <["ip" := VStr address]>
    (<["deviceName" := VStr deviceName]>
       (<["softwareName" := or_else softwareName (VStr "")]>
          (<["softwareVersion" := or_else softwareVersion (VStr "")]>
             (<["lastSeen" := VStr now]>
                (<["autoConnect" := VBool true]> ∅))))).

(** [upsert(deviceInfo)] at clock reading [now]. *)
Definition upsert (devices : list (gmap string val)) (address deviceName : string)
    (softwareName softwareVersion : val) (now : string) : list (gmap string val) :=
  let entry := historyEntry address deviceName softwareName softwareVersion now in
  match list_find (sameDevice address deviceName) devices with
  | Some (idx, old) => <[idx := entry ∪ old]> devices
  | None => devices ++ [<["firstSeen" := VStr now]> entry]
  end.

(** [shouldAutoConnect(ip, deviceName)] *)
Definition shouldAutoConnect (devices : list (gmap string val)) (address deviceName : string)
  : val :=
  match list_find (sameDevice address deviceName) devices with
  | Some (_, d) => prop d "autoConnect"
  | None => VBool false
  end.

(** [setAutoConnect(ip, deviceName, value)] *)
Definition setAutoConnect (devices : list (gmap string val)) (address deviceName : string)
    (value : val) : list (gmap string val) :=
  match list_find (sameDevice address deviceName) devices with
  | Some (idx, d) => <[idx := <["autoConnect" := value]> d]> devices
  | None => devices
  end.

(** [remove(ip, deviceName)] *)
Definition remove (devices : list (gmap string val)) (address deviceName : string)
  : list (gmap string val) :=
  filter (fun d => negb (sameDevice address deviceName d)) devices.

End DeviceHistory.

(** ** Escaping text for the page (app.js) *)

Module Frontend.

(** [s.replace(/c/g, r)] for a one-character pattern. *)
Fixpoint replaceAll (c : ascii) (r s : string) : string :=
  match s with
  | EmptyString => EmptyString
  | String a s' =>
      if Ascii.eqb a c then r +:+ replaceAll c r s'
      else String a (replaceAll c r s')
  end.

(** The double quote. *)
Definition dquote : ascii := "034"%char.

(** [escapeHtml(s)] on a string. *)
Definition escapeHtml (s : string) : string :=
  if String.eqb s "" then ""
  else replaceAll "'"%char "&#39;"
         (replaceAll dquote "&quot;"
            (replaceAll ">"%char "&gt;"
               (replaceAll "<"%char "&lt;"
                  (replaceAll "&"%char "&amp;" s)))).

(** The characters that [escapeHtml] replaces other than the ampersand. *)
Definition markup : list ascii := ["<"%char; ">"%char; dquote; "'"%char].

(** The characters of a string. *)
Fixpoint chars (s : string) : list ascii :=
  match s with
  | EmptyString => []
  | String a s' => a :: chars s'
  end.

End Frontend.

(** ** A host for decimal integers

    Enough of the host language to run the manager on integer payloads:
    numerals are optionally signed runs of decimal digits, an integer prints
    in decimal, and an object is given by its string form.  Fractions,
    exponents and radix prefixes are outside it. *)

Module DemoHost.

Fixpoint leading_digits (s : string) (acc : option Z) : option Z :=
  match s with
  | String c s' =>
      match Str.digit c with
      | Some d => leading_digits s' (Some (10 * default 0 acc + d))
      | None => acc
      end
  | EmptyString => acc
  end.

Definition unsigned_prefix (s : string) : float :=
  match leading_digits s None with
  | Some z => Num.of_Z z
  | None => PrimFloat.nan
  end.

Definition signed_prefix (s : string) : float :=
  match s with
  | String "-"%char s' => PrimFloat.opp (unsigned_prefix s')
  | String "+"%char s' => unsigned_prefix s'
  | _ => unsigned_prefix s
  end.

Fixpoint all_digits (s : string) : bool :=
  match s with
  | String c s' => bool_decide (is_Some (Str.digit c)) && all_digits s'
  | EmptyString => true
  end.

Definition whole (s : string) : float :=
  if String.eqb s "" then 0%float
  else if all_digits s then unsigned_prefix s
  else PrimFloat.nan.

Definition print (n : float) : string :=
  match Num.to_Z n with
  | Some z => NilZero.string_of_int (Z.to_int z)
  | None => "NaN"
  end.

Definition host : Host := {|
  obj := string;
  obj_to_string := fun s => s;
  num_to_string := print;
  parseFloat_str := signed_prefix;
  parseInt_str := signed_prefix;
  str_to_num := whole;
|}.

End DemoHost.

(** ** Sample inputs *)

Module Examples.

#[local] Existing Instance DemoHost.host.

(** A status for deck A carrying both a track path and a file location. *)
Definition bothPaths : gmap string val :=
  {[ "deck" := VStr "A";
     "trackPath" := VStr "/music/a.mp3";
     "fileLocation" := VStr "/usb/b.mp3" ]}.

(** A status for deck C that stops playback and reports no tempo. *)
Definition paused : gmap string val :=
  {[ "deck" := VStr "C"; "play" := VBool false; "trackBpm" := VNum 0%float ]}.

(** A status for deck C that carries a title and nothing else. *)
Definition retitled : gmap string val :=
  {[ "deck" := VStr "C"; "title" := VStr "Opus" ]}.

(** A status whose deck letter names no deck. *)
Definition strayLetter : gmap string val :=
  {[ "deck" := VStr "Z"; "title" := VStr "Strobe"; "address" := VStr "10.0.0.2" ]}.

(** A status for player 3 with one hotcue and one falsy hotcue field. *)
Definition loaded : gmap string val :=
  {[ "player" := VNum 3%float; "title" := VStr "Strobe";
     "play" := VBool true; "trackBpm" := VNum 128%float;
     "hotcue2" := VObj "cue"; "hotcue5" := VNull ]}.

(** Deck 3 after [loaded] on the empty state. *)
Definition playing : State := _applyPlayerStatus _createEmptyState (Some loaded).

(** A connected manager in the middle of a session. *)
Definition session : ManagerState :=
  {| stagelinqInstance := true; connected := true; state := playing;
     _demoInterval := false; discoveredDevices := ∅;
     _connectedIp := VStr "10.0.0.2" |}.

(** A burst of events: a status, raw changes on decks and mixer, a beat. *)
Definition burst : list DeviceEvent :=
  [ stateChanged (Some loaded);
    trackLoaded (Some retitled);
    message {| msg_name := "/Engine/Deck3/Track/SampleRate";
               msg_json := Some (VObj "payload", {[ "value" := VNum 44100%float ]});
               msg_value := VUndef |};
    message {| msg_name := "/Mixer/CH1faderPosition";
               msg_json := Some (VObj "payload", {[ "value" := VStr "loud" ]});
               msg_value := VUndef |};
    message {| msg_name := "/Engine/Deck7/Play";
               msg_json := None; msg_value := VBool true |};
    message {| msg_name := "/Engine/DeckCount";
               msg_json := None; msg_value := VStr "none" |};
    beatMessage (Some [ {[ "beat" := VNum 1%float ]}; ∅;
                        {[ "beat" := VNum 9%float; "samples" := VNum 88200%float ]} ]) ].

(** A history of two devices, the second with auto-connect switched off. *)
Definition known : list (gmap string val) :=
  [ {[ "ip" := VStr "10.0.0.2"; "deviceName" := VStr "Prime 4";
       "autoConnect" := VBool true; "firstSeen" := VStr "monday" ]};
    {[ "ip" := VStr "10.0.0.3"; "deviceName" := VStr "SC6000";
       "autoConnect" := VBool false; "firstSeen" := VStr "tuesday" ]} ].

(** A status that names deck A and carries nothing else. *)
Definition bare : gmap string val := {[ "deck" := VStr "A" ]}.

(** A manager whose device reported its address while the connection flag
    and the connected address were never set. *)
Definition reported : ManagerState :=
  {| stagelinqInstance := true; connected := false;
     state := set_device (set_ip (VStr "10.0.0.2") (device playing)) playing;
     _demoInterval := false; discoveredDevices := ∅;
     _connectedIp := VNull |}.

(** The entries of a beat message for three decks. *)
Definition pulse : list (gmap string val) :=
  [ {[ "beat" := VNum 1%float ]}; ∅;
    {[ "beat" := VNum 9%float; "samples" := VNum 88200%float ]} ].

End Examples.

(** * Properties *)

Section Properties.

Context {host : Host}.

Local Arguments Num.gt : simpl never.
Local Arguments Num.truthy : simpl never.
Local Arguments Num.or_else : simpl never.
Local Arguments float0 : simpl never.
Local Arguments parseInt : simpl never.
Local Arguments parseFloat : simpl never.

(** ** Numbers *)

Lemma zero_div_pos (s : float) :
  Num.gt s 0%float = true -> PrimFloat.div 0%float s = 0%float.
Proof.
  unfold Num.gt. rewrite FloatAxioms.ltb_spec. intros Hlt.
  apply Prim2SF_inj. rewrite FloatAxioms.div_spec.
  change (Prim2SF 0%float) with (S754_zero false) in *.
  destruct (Prim2SF s) as [sg | sg | | sg m e]; simpl in *; try discriminate;
    unfold SFltb, SFcompare in Hlt; destruct sg; try discriminate; reflexivity.
Qed.

Lemma seconds_zero (deck : Deck) : seconds deck 0%float = 0%float.
Proof.
  unfold seconds. destruct (Num.gt (sampleRate deck) 0%float) eqn:E; [|reflexivity].
  now apply zero_div_pos.
Qed.

Lemma float0_cases (v : val) :
  Num.truthy (float0 v) = true \/ float0 v = 0%float.
Proof.
  unfold float0, Num.or_else.
  destruct (Num.truthy (parseFloat v)) eqn:E; [left; exact E | right; reflexivity].
Qed.

Lemma truthy_zero : Num.truthy 0%float = false.
Proof. reflexivity. Qed.

(** ** The deck reducer on sample-domain fields *)

(** With a positive rate, the [SampleRate] case stores the rate and
    recomputes each derived field whose raw value is truthy. *)
Lemma applyField_SampleRate_pos (deck : Deck) (rate : val) :
  let sr := Num.or_else (parseInt rate) 0%float in
  let derive (raw old : float) := if Num.truthy raw then PrimFloat.div raw sr else old in
  Num.gt sr 0%float = true ->
  applyField SampleRate rate deck
  = set_currentLoopOutPosition (derive (loopOutRaw deck) (currentLoopOutPosition deck))
      (set_currentLoopInPosition (derive (loopInRaw deck) (currentLoopInPosition deck))
         (set_cuePosition (derive (cuePositionRaw deck) (cuePosition deck))
            (set_trackLength (derive (trackLengthRaw deck) (trackLength deck))
               (set_sampleRate sr deck)))).
Proof.
  intros sr derive Hpos. subst derive. destruct deck.
  unfold applyField, when. cbn. fold sr. rewrite Hpos. cbn.
  destruct (Num.truthy trackLengthRaw0); cbn;
    destruct (Num.truthy cuePositionRaw0); cbn;
    destruct (Num.truthy loopInRaw0); cbn;
    destruct (Num.truthy loopOutRaw0); reflexivity.
Qed.

Lemma applyField_sample_commute (f : Field) (deck : Deck) (value rate : val) :
  f = TrackLength \/ f = CuePosition \/ f = CurrentLoopInPosition
  \/ f = CurrentLoopOutPosition ->
  Num.gt (Num.or_else (parseInt rate) 0%float) 0%float = true ->
  applyField SampleRate rate (applyField f value deck)
  = applyField f value (applyField SampleRate rate deck).
Proof.
  intros Hf Hpos. rewrite !applyField_SampleRate_pos by assumption.
  destruct deck.
  destruct Hf as [-> | [-> | [-> | ->]]]; unfold applyField, seconds; cbn;
    rewrite Hpos;
    (destruct (float0_cases value) as [Ht | Hz];
     [ rewrite Ht | rewrite !Hz, truthy_zero;
                    destruct (Num.gt sampleRate0 0%float) eqn:E;
                    rewrite ?zero_div_pos by assumption ]);
    reflexivity.
Qed.

Lemma applyField_sample_derived (f : Field) (derived : Deck -> float)
    (deck : Deck) (value rate : val) :
  (f = TrackLength /\ derived = trackLength)
  \/ (f = CuePosition /\ derived = cuePosition)
  \/ (f = CurrentLoopInPosition /\ derived = currentLoopInPosition)
  \/ (f = CurrentLoopOutPosition /\ derived = currentLoopOutPosition) ->
  Num.gt (Num.or_else (parseInt rate) 0%float) 0%float = true ->
  derived (applyField f value (applyField SampleRate rate deck))
  = PrimFloat.div (float0 value) (Num.or_else (parseInt rate) 0%float).
Proof.
  intros Hf Hpos. rewrite applyField_SampleRate_pos by assumption.
  destruct deck.
  destruct Hf as [[-> ->] | [[-> ->] | [[-> ->] | [-> ->]]]];
    unfold applyField, seconds; cbn; rewrite Hpos; reflexivity.
Qed.

(** ** The state tree under the reducers *)

Lemma decks_set_decks (m : gmap Z Deck) (st : State) : decks (set_decks m st) = m.
Proof. reflexivity. Qed.

Lemma set_decks_twice (m1 m2 : gmap Z Deck) (st : State) :
  set_decks m2 (set_decks m1 st) = set_decks m2 st.
Proof. reflexivity. Qed.

Lemma applyRawDeckState_at (st : State) (n : Z) (key : string) (f : Field)
    (value : val) (deck : Deck) :
  fieldOf key = Some f ->
  decks st !! n = Some deck ->
  _applyRawDeckState st n key value
  = Some (set_decks (<[n := applyField f value deck]> (decks st)) st).
Proof. intros Hf Hd. unfold _applyRawDeckState. now rewrite Hf, Hd. Qed.

Lemma applyRawDeckState_twice (st : State) (n : Z) (k1 k2 : string) (f1 f2 : Field)
    (v1 v2 : val) (deck : Deck) :
  fieldOf k1 = Some f1 -> fieldOf k2 = Some f2 ->
  decks st !! n = Some deck ->
  (_applyRawDeckState st n k1 v1 ≫= fun s => _applyRawDeckState s n k2 v2)
  = Some (set_decks (<[n := applyField f2 v2 (applyField f1 v1 deck)]> (decks st)) st).
Proof.
  intros H1 H2 Hd.
  rewrite (applyRawDeckState_at st n k1 f1 v1 deck H1 Hd). cbn [mbind option_bind].
  rewrite (applyRawDeckState_at _ n k2 f2 v2 (applyField f1 v1 deck) H2)
    by (rewrite decks_set_decks; apply lookup_insert_eq).
  rewrite decks_set_decks, set_decks_twice, insert_insert_eq. reflexivity.
Qed.

Lemma applyRawDeckState_total (st : State) (n : Z) (key : string) (value : val) :
  is_Some (decks st !! n) -> is_Some (_applyRawDeckState st n key value).
Proof.
  intros [deck Hd]. unfold _applyRawDeckState.
  destruct (fieldOf key); rewrite ?Hd; eauto.
Qed.

(** C1. Order independence of sample-rate arrival: on any deck, a
    sample-domain update (track length, cue position, loop-in or loop-out)
    followed by an update to a positive sample rate leaves the same state
    as the two updates in the reverse order, and in it the derived seconds
    field is the stored raw value divided by the stored sample rate. *)
Theorem sample_rate_order_independence (st : State) (n : Z) (deck : Deck)
    (key : string) (derived : Deck -> float) (value rate : val) :
  (key, derived) ∈ sampleFields ->
  decks st !! n = Some deck ->
  Num.gt (Num.or_else (parseInt rate) 0%float) 0%float = true ->
  exists st' deck',
    (_applyRawDeckState st n key value
       ≫= fun s => _applyRawDeckState s n "SampleRate" rate) = Some st'
    /\ (_applyRawDeckState st n "SampleRate" rate
          ≫= fun s => _applyRawDeckState s n key value) = Some st'
    /\ decks st' !! n = Some deck'
    /\ derived deck'
        = PrimFloat.div (float0 value) (Num.or_else (parseInt rate) 0%float).
Proof.
  intros Hin Hd Hpos.
  assert (exists f, fieldOf key = Some f
            /\ (f = TrackLength \/ f = CuePosition \/ f = CurrentLoopInPosition
                \/ f = CurrentLoopOutPosition)
            /\ ((f = TrackLength /\ derived = trackLength)
                \/ (f = CuePosition /\ derived = cuePosition)
                \/ (f = CurrentLoopInPosition /\ derived = currentLoopInPosition)
                \/ (f = CurrentLoopOutPosition /\ derived = currentLoopOutPosition)))
    as (f & Hf & Hsample & Hder).
  { unfold sampleFields in Hin.
    repeat (apply elem_of_cons in Hin as [Hin | Hin]);
      [ injection Hin as -> -> .. | apply elem_of_nil in Hin; contradiction ];
      eexists; (split; [reflexivity |]); tauto. }
  exists (set_decks (<[n := applyField f value (applyField SampleRate rate deck)]> (decks st)) st),
    (applyField f value (applyField SampleRate rate deck)).
  split; [| split; [| split]].
  - rewrite (applyRawDeckState_twice st n key "SampleRate" f SampleRate value rate deck Hf eq_refl Hd).
    now rewrite applyField_sample_commute.
  - exact (applyRawDeckState_twice st n "SampleRate" key SampleRate f rate value deck eq_refl Hf Hd).
  - rewrite decks_set_decks. apply lookup_insert_eq.
  - now apply applyField_sample_derived.
Qed.

(** C9. Frame property of the reducers: a raw deck update for deck [n] that
    returns changes no other deck's record, nor the mixer, nor the device,
    and it does return whenever deck [n] exists; a mixer update changes
    neither the decks nor the device. *)
Theorem reducers_frame (st st' : State) (n : Z) (key : string) (value : val) :
  _applyRawDeckState st n key value = Some st' ->
  (forall m : Z, m <> n -> decks st' !! m = decks st !! m)
  /\ mixer st' = mixer st
  /\ device st' = device st
  /\ (forall s : State, is_Some (decks s !! n) ->
        is_Some (_applyRawDeckState s n key value))
  /\ (forall (s : State) (k : string),
        decks (_applyMixerState s k value) = decks s
        /\ device (_applyMixerState s k value) = device s).
Proof.
  intros Hrun.
  assert (Hframe : (forall m : Z, m <> n -> decks st' !! m = decks st !! m)
                   /\ mixer st' = mixer st /\ device st' = device st).
  { unfold _applyRawDeckState in Hrun.
    destruct (fieldOf key) as [f |]; [| injection Hrun as <-; auto].
    destruct (decks st !! n) as [deck |] eqn:Hd.
    - injection Hrun as <-. repeat split.
      intros m Hm. rewrite decks_set_decks. now apply lookup_insert_ne.
    - destruct (touchesDeck f value); [discriminate | injection Hrun as <-; auto]. }
  destruct Hframe as (H1 & H2 & H3).
  repeat split; auto using applyRawDeckState_total.
Qed.

(** C4. Track/CurrentBPM isolation: the raw change of the path
    /Engine/Deck1/Track/CurrentBPM to 128.0 sets deck 1's trackBPM to 128.0
    and leaves its currentBPM as it was. *)
Theorem track_currentBPM_isolation (st : State) (deck : Deck) :
  decks st !! 1 = Some deck ->
  exists st' deck',
    _processRawStateChange st "/Engine/Deck1/Track/CurrentBPM" (VNum 128%float) = Some st'
    /\ decks st' !! 1 = Some deck'
    /\ trackBPM deck' = VNum 128%float
    /\ currentBPM deck' = currentBPM deck.
Proof.
  intros Hd.
  exists (set_decks (<[1 := applyField TrackBPM (VNum 128%float) deck]> (decks st)) st),
    (applyField TrackBPM (VNum 128%float) deck).
  split; [| split; [| split]].
  - unfold _processRawStateChange.
    change (String.eqb "/Engine/Deck1/Track/CurrentBPM" "") with false. cbv iota.
    change (matchEngineDeck "/Engine/Deck1/Track/CurrentBPM")
      with (Some (1, "Track/CurrentBPM")).
    cbv iota beta.
    change (String.eqb "Track/CurrentBPM" "Track/CurrentBPM") with true. cbv iota zeta.
    unfold guardedDeckUpdate. rewrite Hd.
    now apply applyRawDeckState_at.
  - rewrite decks_set_decks. apply lookup_insert_eq.
  - destruct deck. reflexivity.
  - destruct deck. reflexivity.
Qed.

(** ** The key table *)

Lemma KEY_MAP_inside (i : Z) :
  0 <= i <= 23 -> exists label, KEY_MAP !! i = Some label /\ label <> "".
Proof.
  intros Hi. rewrite <- (Z2Nat.id i) by lia.
  assert (Hn : (Z.to_nat i < 24)%nat) by lia. revert Hn.
  generalize (Z.to_nat i). intros n Hn.
  do 24 (destruct n as [| n]; [eexists; split; [reflexivity | discriminate] |]).
  lia.
Qed.

Lemma KEY_MAP_outside (i : Z) : ~ (0 <= i <= 23) -> KEY_MAP !! i = None.
Proof.
  intros Hi. unfold KEY_MAP. apply not_elem_of_list_to_map.
  cbn [fmap list_fmap fst].
  repeat (apply not_elem_of_cons; split; [lia |]). apply not_elem_of_nil.
Qed.

(** The label the deck reducer stores is the label of the parsed index. *)
Lemma applyField_CurrentKeyIndex (deck : Deck) (value : val) :
  currentKey (applyField CurrentKeyIndex value deck) = keyLabelOf (parseInt value)
  /\ currentKeyIndex (applyField CurrentKeyIndex value deck) = parseInt value.
Proof. destruct deck. split; reflexivity. Qed.

(** C7. Key index resolution: a CurrentKeyIndex update on a deck that
    exists returns a state, raising nothing, in which that deck's key index
    is the parsed value and its key label is resolved from it.  When the
    parsed value is an integer from 0 to 23 the label is the table's entry
    and is a non-empty string; when it is any other integer, or no integer
    at all (NaN, a fraction, an infinity), the label is the empty string.
    So the label of every integer index from 0 to 23 is non-empty and the
    label of every other integer index is empty. *)
Theorem key_index_resolution (st : State) (k : Z) (deck : Deck) (value : val)
    (i : Z) :
  decks st !! k = Some deck ->
  exists st' deck',
    _applyRawDeckState st k "CurrentKeyIndex" value = Some st'
    /\ decks st' !! k = Some deck'
    /\ currentKeyIndex deck' = parseInt value
    /\ (Num.to_Z (parseInt value) = Some i -> 0 <= i <= 23 ->
        currentKey deck' = keyLabel i /\ KEY_MAP !! i = Some (currentKey deck')
        /\ currentKey deck' <> "")
    /\ (Num.to_Z (parseInt value) = Some i -> ~ (0 <= i <= 23) -> currentKey deck' = "")
    /\ (Num.to_Z (parseInt value) = None -> currentKey deck' = "")
    /\ (0 <= i <= 23 -> keyLabel i <> "")
    /\ (~ (0 <= i <= 23) -> keyLabel i = "").
Proof.
  intros Hd.
  exists (set_decks (<[k := applyField CurrentKeyIndex value deck]> (decks st)) st),
         (applyField CurrentKeyIndex value deck).
  destruct (applyField_CurrentKeyIndex deck value) as [Hkey Hidx].
  split; [exact (applyRawDeckState_at st k "CurrentKeyIndex" CurrentKeyIndex value deck
                   eq_refl Hd) |].
  split; [rewrite decks_set_decks; apply lookup_insert_eq |].
  split; [exact Hidx |].
  rewrite Hkey. unfold keyLabelOf, keyLabel.
  split; [| split; [| split; [| split]]].
  - intros -> Hi. destruct (KEY_MAP_inside i Hi) as (label & Hl & Hne).
    rewrite Hl. split; [reflexivity | split; [reflexivity | exact Hne]].
  - intros -> Hi. now rewrite KEY_MAP_outside.
  - now intros ->.
  - intros Hi. destruct (KEY_MAP_inside i Hi) as (label & -> & Hne). exact Hne.
  - intros Hi. now rewrite KEY_MAP_outside.
Qed.

(** ** Reset *)

(** C3, as the code has it. After [stop] the state tree is the freshly
    created empty tree, whatever the state was: each of the four decks is
    the empty deck, with songLoaded false, every string empty, artwork and
    jog colour null, no hotcues, and every number 0 except the key index,
    which is -1. *)
Theorem stop_resets_state (m : ManagerState) :
  state (fst (stop m)) = _createEmptyState
  /\ Forall (fun k => decks (state (fst (stop m))) !! k = Some emptyDeck) [1; 2; 3; 4]
  /\ dom (decks (state (fst (stop m)))) = list_to_set [1; 2; 3; 4]
  /\ songLoaded emptyDeck = false
  /\ currentKeyIndex emptyDeck = (-1)%float
  /\ [trackLength emptyDeck; sampleRate emptyDeck; currentPosition emptyDeck;
       speedRange emptyDeck; cuePosition emptyDeck; cuePositionRaw emptyDeck;
       currentLoopInPosition emptyDeck; currentLoopOutPosition emptyDeck;
       currentLoopSizeInBeats emptyDeck; trackLengthRaw emptyDeck;
       loopInRaw emptyDeck; loopOutRaw emptyDeck]
      = replicate 12 0%float
  /\ [currentBPM emptyDeck; trackBPM emptyDeck; speed emptyDeck; syncMode emptyDeck;
       masterTempo emptyDeck; externalMixerVolume emptyDeck; beatPosition emptyDeck;
       totalBeats emptyDeck]
      = replicate 8 (VNum 0%float)
  /\ [trackName emptyDeck; artistName emptyDeck; songName emptyDeck; trackUri emptyDeck;
       trackNetworkPath emptyDeck; dbSourceName emptyDeck; trackPath emptyDeck]
      = replicate 7 (VStr "")
  /\ currentKey emptyDeck = ""
  /\ hotcues emptyDeck = None.
Proof.
  repeat split; repeat constructor.
Qed.

(** ** The player-status merger *)

Lemma when_frame {A} (g : Deck -> A) (c : bool) (f : Deck -> Deck) (d : Deck) :
  (forall x, g (f x) = g x) -> g (when c f d) = g d.
Proof. intros Hf. destruct c; [apply Hf | reflexivity]. Qed.

Lemma when_apply {A} (g : Deck -> A) (c : bool) (f : Deck -> Deck) (d : Deck) :
  g (when c f d) = if c then g (f d) else g d.
Proof. now destruct c. Qed.

Lemma hotcueStep_hotcues (s : gmap string val) (d : Deck) (i : Z) :
  hotcueStep s d i = set_hotcues (hotcues (hotcueStep s d i)) d.
Proof. unfold hotcueStep. destruct (truthy _); destruct d; reflexivity. Qed.

Lemma hotcue_fold_hotcues (s : gmap string val) (l : list Z) (d : Deck) :
  foldl (hotcueStep s) d l = set_hotcues (hotcues (foldl (hotcueStep s) d l)) d.
Proof.
  revert d. induction l as [| i l IH]; intros d; cbn [foldl].
  - destruct d; reflexivity.
  - rewrite IH at 1. rewrite (hotcueStep_hotcues s d i) at 2. reflexivity.
Qed.

Lemma hotcue_fold_frame {A} (g : Deck -> A) (s : gmap string val) (l : list Z) (d : Deck) :
  (forall h x, g (set_hotcues h x) = g x) -> g (foldl (hotcueStep s) d l) = g d.
Proof. intros Hg. rewrite hotcue_fold_hotcues. apply Hg. Qed.

(** Peel the steps of [mergeStatus] that leave the field [g] alone. *)
Ltac peel g :=
  rewrite ?(hotcue_fold_frame g) by (intros; reflexivity);
  rewrite ?(when_frame g) by (intros; reflexivity).

Lemma mergeStatus_play (s : gmap string val) (d : Deck) :
  play (mergeStatus s d)
  = if defined (prop s "play") then truthy (prop s "play") else play d.
Proof.
  unfold mergeStatus. cbv zeta. peel (@play host).
  rewrite (when_apply play). destruct (defined (prop s "play")); [reflexivity |].
  peel (@play host). reflexivity.
Qed.

Lemma mergeStatus_trackBPM (s : gmap string val) (d : Deck) :
  trackBPM (mergeStatus s d)
  = if defined (prop s "trackBpm") && gt0 (prop s "trackBpm")
    then prop s "trackBpm" else trackBPM d.
Proof.
  unfold mergeStatus. cbv zeta. peel (@trackBPM host).
  rewrite (when_apply trackBPM).
  destruct (defined (prop s "trackBpm") && gt0 (prop s "trackBpm")); [reflexivity |].
  peel (@trackBPM host). reflexivity.
Qed.

Lemma mergeStatus_currentBPM (s : gmap string val) (d : Deck) :
  currentBPM (mergeStatus s d)
  = if defined (prop s "currentBpm") && gt0 (prop s "currentBpm")
    then prop s "currentBpm" else currentBPM d.
Proof.
  unfold mergeStatus. cbv zeta. peel (@currentBPM host).
  rewrite (when_apply currentBPM).
  destruct (defined (prop s "currentBpm") && gt0 (prop s "currentBpm")); [reflexivity |].
  peel (@currentBPM host). reflexivity.
Qed.

Lemma mergeStatus_trackUri (s : gmap string val) (d : Deck) :
  trackUri (mergeStatus s d)
  = let fromPath :=
      if defined (prop s "trackPath")
      then or_else (prop s "trackPath") (VStr "") else trackUri d in
    if defined (prop s "fileLocation")
    then or_else (prop s "fileLocation") fromPath else fromPath.
Proof.
  unfold mergeStatus. cbv zeta. peel (@trackUri host).
  rewrite (when_apply trackUri).
  assert (Hpath : forall X : Deck,
            trackUri (when (defined (prop s "trackPath"))
                        (fun d0 => set_trackUri (or_else (prop s "trackPath") (VStr ""))
                                     (set_trackPath (or_else (prop s "trackPath") (VStr "")) d0)) X)
            = if defined (prop s "trackPath")
              then or_else (prop s "trackPath") (VStr "") else trackUri X).
  { intros X. rewrite (when_apply trackUri). reflexivity. }
  change (trackUri (set_trackUri ?v ?x)) with v.
  rewrite !Hpath. peel (@trackUri host). reflexivity.
Qed.

Lemma hotcueAt_step (s : gmap string val) (d : Deck) (a i : Z) :
  hotcueAt (hotcueStep s d a) i
  = if bool_decide (i = a) && truthy (prop s (hotcueKey i))
    then Some (prop s (hotcueKey i)) else hotcueAt d i.
Proof.
  unfold hotcueStep. case_bool_decide as Hia; cbn [andb].
  - subst a. destruct (truthy (prop s (hotcueKey i))); [| reflexivity].
    destruct d. unfold hotcueAt. cbn. apply lookup_insert_eq.
  - destruct (truthy (prop s (hotcueKey a))); [| reflexivity].
    destruct d as [? ? ? ? ? ? ? ? ? ? ? ? ? ? ? ? ? ? ? ? ? ? ? ? ? ? ? ? ? ? ? ? ? ? ? ? ? ? ? hs].
    unfold hotcueAt. cbn. rewrite lookup_insert_ne by congruence.
    destruct hs; [reflexivity | apply lookup_empty].
Qed.

Lemma hotcueAt_fold (s : gmap string val) (l : list Z) (d : Deck) (i : Z) :
  hotcueAt (foldl (hotcueStep s) d l) i
  = if bool_decide (i ∈ l) && truthy (prop s (hotcueKey i))
    then Some (prop s (hotcueKey i)) else hotcueAt d i.
Proof.
  revert d. induction l as [| a l IH]; intros d; cbn [foldl].
  - rewrite bool_decide_eq_false_2 by apply not_elem_of_nil. reflexivity.
  - rewrite IH, hotcueAt_step.
    destruct (truthy (prop s (hotcueKey i))); rewrite ?andb_true_r, ?andb_false_r;
      [| reflexivity].
    rewrite (bool_decide_ext (i ∈ a :: l) (i = a \/ i ∈ l)) by apply elem_of_cons.
    rewrite bool_decide_or.
    destruct (bool_decide (i = a)), (bool_decide (i ∈ l)); reflexivity.
Qed.

Lemma mergeStatus_hotcueAt (s : gmap string val) (d : Deck) (i : Z) :
  hotcueAt (mergeStatus s d) i
  = if bool_decide (1 <= i <= 8) && truthy (prop s (hotcueKey i))
    then Some (prop s (hotcueKey i)) else hotcueAt d i.
Proof.
  unfold mergeStatus. cbv zeta. rewrite hotcueAt_fold.
  replace (bool_decide (i ∈ seqZ 1 8)) with (bool_decide (1 <= i <= 8))
    by (apply bool_decide_ext; rewrite elem_of_seqZ; lia).
  destruct (_ && _); [reflexivity |].
  unfold hotcueAt. rewrite ?(when_frame hotcues) by (intros; reflexivity).
  reflexivity.
Qed.

Lemma applyPlayerStatus_target (st : State) (s : gmap string val) (k : Z) (deck : Deck) :
  targetDeck st s = Some (k, deck) ->
  decks (_applyPlayerStatus st (Some s)) !! k = Some (mergeStatus s deck).
Proof.
  unfold targetDeck, _applyPlayerStatus. intros H.
  destruct (_resolveDeckNumber s) as [n |]; [| discriminate]. cbn in H.
  destruct (Num.to_Z n) as [k' |]; [| discriminate]. cbn in H.
  destruct (decks st !! k') as [d |] eqn:Hd; [| discriminate]. cbn in H.
  injection H as -> ->. cbn. apply lookup_insert_eq.
Qed.

Lemma applyPlayerStatus_dropped (st : State) (s : gmap string val) :
  targetDeck st s = None -> _applyPlayerStatus st (Some s) = st.
Proof.
  unfold targetDeck, _applyPlayerStatus. intros H.
  destruct (_resolveDeckNumber s) as [n |]; [| reflexivity]. cbn in H.
  destruct (Num.to_Z n) as [k' |]; [| reflexivity]. cbn in H.
  destruct (decks st !! k') as [d |] eqn:Hd; [discriminate | reflexivity].
Qed.

(** C2, as the code has it. When one status update carries both a track
    path and a file location, the deck's trackUri ends as the file location
    if that value is truthy; only under a falsy file location does it end as
    the track path (or the empty string when the track path is falsy). *)
Theorem status_uri_from_both (st : State) (s : gmap string val) (k : Z) (deck : Deck) :
  targetDeck st s = Some (k, deck) ->
  defined (prop s "trackPath") = true ->
  defined (prop s "fileLocation") = true ->
  exists deck',
    decks (_applyPlayerStatus st (Some s)) !! k = Some deck'
    /\ trackUri deck'
        = or_else (prop s "fileLocation") (or_else (prop s "trackPath") (VStr ""))
    /\ trackPath deck' = or_else (prop s "trackPath") (VStr "").
Proof.
  intros Ht Hp Hf. exists (mergeStatus s deck).
  split; [now apply applyPlayerStatus_target |]. split.
  - rewrite mergeStatus_trackUri. cbv zeta. now rewrite Hp, Hf.
  - unfold mergeStatus. cbv zeta. peel (@trackPath host).
    rewrite (when_apply trackPath), Hp. reflexivity.
Qed.

(** C5. The merge of the play field goes by presence: on the deck a status
    update names, a play field that is present and false sets play to false
    (also when play was true), and an absent play field, which reads as
    undefined, leaves play as it was. *)
Theorem status_play_presence (st : State) (s : gmap string val) (k : Z) (deck : Deck) :
  targetDeck st s = Some (k, deck) ->
  exists deck',
    decks (_applyPlayerStatus st (Some s)) !! k = Some deck'
    /\ (prop s "play" = VBool false -> play deck' = false)
    /\ (prop s "play" = VUndef -> play deck' = play deck).
Proof.
  intros Ht. exists (mergeStatus s deck).
  split; [now apply applyPlayerStatus_target |].
  rewrite mergeStatus_play. split; intros ->; reflexivity.
Qed.

(** C6. The BPM guard of the status merger: on the deck a status update
    names, a trackBpm that is 0 or absent leaves trackBPM as it was (so a
    known 128.0 stays), and the same holds of currentBpm and currentBPM; each
    of the two is stored exactly when it is present and greater than 0. *)
Theorem status_bpm_guard (st : State) (s : gmap string val) (k : Z) (deck : Deck) :
  targetDeck st s = Some (k, deck) ->
  exists deck',
    decks (_applyPlayerStatus st (Some s)) !! k = Some deck'
    /\ (prop s "trackBpm" = VNum 0%float \/ prop s "trackBpm" = VUndef ->
        trackBPM deck' = trackBPM deck)
    /\ (prop s "currentBpm" = VNum 0%float \/ prop s "currentBpm" = VUndef ->
        currentBPM deck' = currentBPM deck)
    /\ trackBPM deck'
        = (if defined (prop s "trackBpm") && gt0 (prop s "trackBpm")
           then prop s "trackBpm" else trackBPM deck)
    /\ currentBPM deck'
        = (if defined (prop s "currentBpm") && gt0 (prop s "currentBpm")
           then prop s "currentBpm" else currentBPM deck).
Proof.
  intros Ht. exists (mergeStatus s deck).
  split; [now apply applyPlayerStatus_target |].
  rewrite mergeStatus_trackBPM, mergeStatus_currentBPM.
  repeat split.
  - intros [-> | ->]; reflexivity.
  - intros [-> | ->]; reflexivity.
Qed.

(** C8. A status update whose deck cannot be resolved is dropped whole: when
    it carries neither a deck nor a player, or a deck the letter table does
    not map, or a player that parses to no number, or when the resolved
    number names no deck slot, the state tree is returned as it was, decks,
    mixer and device alike; the merger is total, so it raises nothing. *)
Theorem status_unresolved_dropped (st : State) (s : gmap string val) :
  (truthy (prop s "deck") = false /\ truthy (prop s "player") = false)
  \/ (truthy (prop s "deck") = true /\ deckLetters !! ToString (prop s "deck") = None)
  \/ (truthy (prop s "deck") = false
      /\ Num.truthy (parseInt (prop s "player")) = false)
  \/ (exists n, _resolveDeckNumber s = Some n
               /\ forall k, Num.to_Z n = Some k -> decks st !! k = None) ->
  _applyPlayerStatus st (Some s) = st.
Proof.
  intros H. apply applyPlayerStatus_dropped. unfold targetDeck.
  destruct H as [[Hd Hp] | [[Hd Hl] | [[Hd Hp] | (n & Hn & Hk)]]].
  - unfold _resolveDeckNumber. now rewrite Hd, Hp.
  - unfold _resolveDeckNumber. now rewrite Hd, Hl.
  - unfold _resolveDeckNumber, or_null. rewrite Hd, Hp.
    now destruct (truthy (prop s "player")).
  - rewrite Hn. cbn. destruct (Num.to_Z n) as [k |]; [| reflexivity]. cbn.
    now rewrite (Hk k eq_refl).
Qed.

(** C10. Hotcues merge by truthiness: on the deck a status update names,
    the hotcue mapping at an index from 1 to 8 becomes the status object's
    hotcue value when that value is truthy and is left as it was otherwise,
    also when the value is present but falsy; no other index changes. *)
Theorem hotcue_merge_truthiness (st : State) (s : gmap string val) (k : Z)
    (deck : Deck) (i : Z) :
  targetDeck st s = Some (k, deck) ->
  exists deck',
    decks (_applyPlayerStatus st (Some s)) !! k = Some deck'
    /\ hotcueAt deck' i
        = if bool_decide (1 <= i <= 8) && truthy (prop s (hotcueKey i))
          then Some (prop s (hotcueKey i))
          else hotcueAt deck i.
Proof.
  intros Ht. exists (mergeStatus s deck).
  split; [now apply applyPlayerStatus_target | apply mergeStatus_hotcueAt].
Qed.

End Properties.

(** * The theorems at sample inputs *)

Section Instances.

#[local] Existing Instance DemoHost.host.

Lemma sample_rate_order_independence_witness :
  exists st' deck',
    (_applyRawDeckState _createEmptyState 1 "TrackLength" (VNum 26460000%float)
       ≫= fun s => _applyRawDeckState s 1 "SampleRate" (VNum 44100%float)) = Some st'
    /\ (_applyRawDeckState _createEmptyState 1 "SampleRate" (VNum 44100%float)
          ≫= fun s => _applyRawDeckState s 1 "TrackLength" (VNum 26460000%float)) = Some st'
    /\ decks st' !! 1 = Some deck'
    /\ trackLength deck' = 600%float.
Proof.
  destruct (sample_rate_order_independence _createEmptyState 1 emptyDeck
              "TrackLength" trackLength (VNum 26460000%float) (VNum 44100%float))
    as (st' & deck' & H1 & H2 & H3 & H4).
  - apply elem_of_cons. left. reflexivity.
  - reflexivity.
  - reflexivity.
  - exists st', deck'. repeat split; assumption.
Defined.

Lemma reducers_frame_witness :
  exists st',
    _applyRawDeckState _createEmptyState 2 "Play" (VBool true) = Some st'
    /\ (forall m : Z, m <> 2 -> decks st' !! m = decks _createEmptyState !! m)
    /\ mixer st' = mixer _createEmptyState
    /\ device st' = device _createEmptyState.
Proof.
  assert (Hrun : _applyRawDeckState _createEmptyState 2 "Play" (VBool true)
                 = Some (set_decks (<[2 := applyField Play (VBool true) emptyDeck]>
                                      (decks _createEmptyState)) _createEmptyState)).
  { apply applyRawDeckState_at; reflexivity. }
  eexists. split; [exact Hrun |].
  pose proof (reducers_frame _createEmptyState _ 2 "Play" (VBool true) Hrun)
    as (H1 & H2 & H3 & _).
  exact (conj H1 (conj H2 H3)).
Defined.

Lemma track_currentBPM_isolation_witness :
  exists st' deck',
    _processRawStateChange _createEmptyState "/Engine/Deck1/Track/CurrentBPM"
      (VNum 128%float) = Some st'
    /\ decks st' !! 1 = Some deck'
    /\ trackBPM deck' = VNum 128%float
    /\ currentBPM deck' = VNum 0%float.
Proof.
  apply (track_currentBPM_isolation _createEmptyState emptyDeck). reflexivity.
Defined.

Lemma key_index_resolution_witness :
  (exists st' deck',
     _applyRawDeckState _createEmptyState 1 "CurrentKeyIndex" (VNum 14%float) = Some st'
     /\ decks st' !! 1 = Some deck'
     /\ currentKeyIndex deck' = 14%float
     /\ currentKey deck' = keyLabel 14
     /\ currentKey deck' <> "")
  /\ (exists st' deck',
       _applyRawDeckState _createEmptyState 1 "CurrentKeyIndex" (VNum 24%float) = Some st'
       /\ decks st' !! 1 = Some deck'
       /\ currentKeyIndex deck' = 24%float
       /\ currentKey deck' = "")
  /\ (exists st' deck',
       _applyRawDeckState _createEmptyState 1 "CurrentKeyIndex" (VStr "minor") = Some st'
       /\ decks st' !! 1 = Some deck'
       /\ currentKey deck' = "").
Proof.
  split; [| split].
  - destruct (key_index_resolution _createEmptyState 1 emptyDeck (VNum 14%float) 14 eq_refl)
      as (st' & deck' & Hrun & Hd & Hidx & Hin & _).
    destruct (Hin eq_refl ltac:(lia)) as (Hlabel & _ & Hne).
    exists st', deck'. repeat split; assumption.
  - destruct (key_index_resolution _createEmptyState 1 emptyDeck (VNum 24%float) 24 eq_refl)
      as (st' & deck' & Hrun & Hd & Hidx & _ & Hout & _).
    exists st', deck'. repeat split; try assumption. apply Hout; [reflexivity | lia].
  - destruct (key_index_resolution _createEmptyState 1 emptyDeck (VStr "minor") 0 eq_refl)
      as (st' & deck' & Hrun & Hd & _ & _ & _ & Hnone & _).
    exists st', deck'. repeat split; try assumption. apply Hnone. reflexivity.
Defined.

(** After [stop] the key index of deck 1 is -1, not 0. *)
Lemma stop_key_index_not_zero :
  exists deck',
    decks (state (fst (stop Examples.session))) !! 1 = Some deck'
    /\ currentKeyIndex deck' = (-1)%float
    /\ currentKeyIndex deck' <> 0%float.
Proof.
  exists emptyDeck. split; [reflexivity |]. split; [reflexivity |].
  intros H. apply (f_equal (PrimFloat.eqb 0%float)) in H. discriminate H.
Defined.

(** With both fields present, trackUri ends as the file location and not as
    the track path. *)
Lemma status_uri_file_location_wins :
  exists deck',
    decks (_applyPlayerStatus _createEmptyState (Some Examples.bothPaths)) !! 1 = Some deck'
    /\ prop Examples.bothPaths "trackPath" = VStr "/music/a.mp3"
    /\ prop Examples.bothPaths "fileLocation" = VStr "/usb/b.mp3"
    /\ trackUri deck' = VStr "/usb/b.mp3"
    /\ trackUri deck' <> prop Examples.bothPaths "trackPath".
Proof.
  exists (mergeStatus Examples.bothPaths emptyDeck).
  split; [reflexivity |].
  split; [reflexivity |]. split; [reflexivity |].
  split; [reflexivity |].
  change (trackUri (mergeStatus Examples.bothPaths emptyDeck)) with (VStr "/usb/b.mp3").
  change (prop Examples.bothPaths "trackPath") with (VStr "/music/a.mp3").
  discriminate.
Defined.

Lemma status_uri_from_both_witness :
  exists deck',
    decks (_applyPlayerStatus _createEmptyState (Some Examples.bothPaths)) !! 1 = Some deck'
    /\ trackUri deck' = VStr "/usb/b.mp3"
    /\ trackPath deck' = VStr "/music/a.mp3".
Proof.
  apply (status_uri_from_both _createEmptyState Examples.bothPaths 1 emptyDeck);
    reflexivity.
Defined.

Lemma status_play_presence_witness :
  play (mergeStatus Examples.loaded emptyDeck) = true
  /\ (exists deck',
        decks (_applyPlayerStatus Examples.playing (Some Examples.paused)) !! 3 = Some deck'
        /\ play deck' = false)
  /\ (exists deck',
        decks (_applyPlayerStatus Examples.playing (Some Examples.retitled)) !! 3 = Some deck'
        /\ play deck' = true).
Proof.
  split; [reflexivity |]. split.
  - destruct (status_play_presence Examples.playing Examples.paused 3
                (mergeStatus Examples.loaded emptyDeck))
      as (deck' & Hd & Hfalse & _); [reflexivity |].
    exists deck'. split; [exact Hd | apply Hfalse; reflexivity].
  - destruct (status_play_presence Examples.playing Examples.retitled 3
                (mergeStatus Examples.loaded emptyDeck))
      as (deck' & Hd & _ & Habsent); [reflexivity |].
    exists deck'. split; [exact Hd | apply Habsent; reflexivity].
Defined.

Lemma status_bpm_guard_witness :
  trackBPM (mergeStatus Examples.loaded emptyDeck) = VNum 128%float
  /\ (exists deck',
        decks (_applyPlayerStatus Examples.playing (Some Examples.paused)) !! 3 = Some deck'
        /\ trackBPM deck' = VNum 128%float)
  /\ (exists deck',
        decks (_applyPlayerStatus Examples.playing (Some Examples.retitled)) !! 3 = Some deck'
        /\ trackBPM deck' = VNum 128%float).
Proof.
  split; [reflexivity |]. split.
  - destruct (status_bpm_guard Examples.playing Examples.paused 3
                (mergeStatus Examples.loaded emptyDeck))
      as (deck' & Hd & Ht & _); [reflexivity |].
    exists deck'. split; [exact Hd | apply Ht; left; reflexivity].
  - destruct (status_bpm_guard Examples.playing Examples.retitled 3
                (mergeStatus Examples.loaded emptyDeck))
      as (deck' & Hd & Ht & _); [reflexivity |].
    exists deck'. split; [exact Hd | apply Ht; right; reflexivity].
Defined.

Lemma status_unresolved_dropped_witness :
  truthy (prop Examples.strayLetter "deck") = true
  /\ deckLetters !! ToString (prop Examples.strayLetter "deck") = None
  /\ _applyPlayerStatus Examples.playing (Some Examples.strayLetter) = Examples.playing.
Proof.
  split; [reflexivity |]. split; [reflexivity |].
  apply (status_unresolved_dropped Examples.playing Examples.strayLetter).
  right. left. split; reflexivity.
Defined.

Lemma hotcue_merge_truthiness_witness :
  prop Examples.loaded "hotcue2" = VObj "cue"
  /\ prop Examples.loaded "hotcue5" = VNull
  /\ (exists deck',
        decks (_applyPlayerStatus _createEmptyState (Some Examples.loaded)) !! 3 = Some deck'
        /\ hotcueAt deck' 2 = Some (VObj "cue"))
  /\ (exists deck',
        decks (_applyPlayerStatus _createEmptyState (Some Examples.loaded)) !! 3 = Some deck'
        /\ hotcueAt deck' 5 = None).
Proof.
  split; [reflexivity |]. split; [reflexivity |]. split.
  - apply (hotcue_merge_truthiness _createEmptyState Examples.loaded 3 emptyDeck 2).
    reflexivity.
  - apply (hotcue_merge_truthiness _createEmptyState Examples.loaded 3 emptyDeck 5).
    reflexivity.
Defined.

(** ** Scenarios *)

(** The sample rate first, the cue position after: two seconds. *)
Example scenario_cue_position :
  (s ← _processRawStateChange _createEmptyState "/Engine/Deck2/SampleRate" (VNum 44100%float);
   s ← _processRawStateChange s "/Engine/Deck2/Track/CuePosition" (VNum 88200%float);
   d ← decks s !! 2;
   Some (cuePositionRaw d, cuePosition d))
  = Some (88200%float, 2%float).
Proof. reflexivity. Qed.

(** A status for player 3. *)
Example scenario_player_status :
  (d ← decks Examples.playing !! 3;
   Some (trackName d, songName d, play d, trackBPM d))
  = Some (VStr "Strobe", VStr "Strobe", true, VNum 128%float).
Proof. reflexivity. Qed.

(** The active deck from a name, from a number, and from noise. *)
Example scenario_active_deck :
  (activeDeckOf (VStr "Deck3"), activeDeckOf (VNum 2%float), activeDeckOf (VStr "garbage"))
  = (3%float, 2%float, 1%float).
Proof. reflexivity. Qed.

(** The client namespace keeps the Track prefix, so the key selects no case. *)
Example scenario_client_track_bpm :
  _processRawStateChange _createEmptyState "/Client/Deck1/Track/CurrentBPM" (VNum 128%float)
  = Some _createEmptyState.
Proof. reflexivity. Qed.

End Instances.

(** * Further properties: the handlers, the history, the page *)

Section Handlers.

Context {host : Host}.

Local Arguments Num.gt : simpl never.
Local Arguments Num.truthy : simpl never.
Local Arguments Num.or_else : simpl never.
Local Arguments float0 : simpl never.
Local Arguments parseInt : simpl never.
Local Arguments parseFloat : simpl never.

(** ** Rule induction over the handlers *)

Section Invariant.

Variable P : State -> Prop.

Hypothesis deck_closed : forall st n d d',
  decks st !! n = Some d -> DeckStep d d' -> P st ->
  P (set_decks (<[n := d']> (decks st)) st).
Hypothesis mixer_closed : forall st key value,
  P st -> P (_applyMixerState st key value).
Hypothesis device_closed : forall st dev',
  DeviceStep (device st) dev' -> P st -> P (set_device dev' st).

Lemma guardedDeckUpdate_inv (st st' : State) (n : Z) (key : string) (value : val) :
  P st -> guardedDeckUpdate st n key value = Some st' -> P st'.
Proof.
  intros HP. unfold guardedDeckUpdate, _applyRawDeckState.
  destruct (decks st !! n) as [d |] eqn:Hd; [| now intros [= <-]].
  destruct (fieldOf key) as [f |]; intros [= <-]; [| exact HP].
  apply (deck_closed st n d); [exact Hd | constructor | exact HP].
Qed.

Lemma processRawStateChange_inv (st st' : State) (path : string) (value : val) :
  P st -> _processRawStateChange st path value = Some st' -> P st'.
Proof.
  intros HP. unfold _processRawStateChange.
  destruct (String.eqb path ""); [now intros [= <-] |].
  destruct (matchEngineDeck path) as [[n key] |]; [now apply guardedDeckUpdate_inv |].
  destruct (matchMixer path) as [key |]; [intros [= <-]; now apply mixer_closed |].
  match goal with |- context [guardedDeckUpdate ?s0 _ _ _] => set (st0 := s0) end.
  assert (HP0 : P st0).
  { subst st0. destruct (Str.includes "DeckCount" path); [| exact HP].
    apply device_closed; [constructor | exact HP]. }
  clearbody st0.
  destruct (matchClientDeck path) as [[n key] |]; [now apply guardedDeckUpdate_inv |].
  repeat (match goal with |- context [if ?b then _ else _] => destruct b end);
    intros [= <-]; try exact HP0; (apply device_closed; [constructor | exact HP0]).
Qed.

Lemma applyPlayerStatus_inv (st : State) (status : option (gmap string val)) :
  P st -> P (_applyPlayerStatus st status).
Proof.
  intros HP. unfold _applyPlayerStatus.
  destruct status as [s |]; [| exact HP].
  destruct (_resolveDeckNumber s) as [n |]; [| exact HP].
  destruct (Num.to_Z n) as [k |]; [| exact HP].
  destruct (decks st !! k) as [d |] eqn:Hd; [| exact HP].
  cbv zeta. apply device_closed; [constructor |].
  apply (deck_closed st k d); [exact Hd | constructor | exact HP].
Qed.

Lemma beatLoop_inv (beats : list (gmap string val)) (st : State) (idx : Z) :
  P st -> P (beatLoop st idx beats).
Proof.
  revert st idx. induction beats as [| b rest IH]; intros st idx HP; cbn [beatLoop].
  - exact HP.
  - apply IH. destruct (decks st !! (idx + 1)) as [d |] eqn:Hd; [| exact HP].
    apply (deck_closed st (idx + 1) d); [exact Hd | constructor | exact HP].
Qed.

Lemma onEvent_inv (st st' : State) (e : DeviceEvent) :
  P st -> onEvent st e = Some st' -> P st'.
Proof.
  intros HP. destruct e as [[s |] | [s |] | s | data | beats]; cbn [onEvent];
    try discriminate.
  1-2: intros [= <-]; now apply (applyPlayerStatus_inv st (Some s)).
  - intros [= <-]. now apply applyPlayerStatus_inv.
  - destruct (String.eqb (msg_name data) ""); [now intros [= <-] |].
    now apply processRawStateChange_inv.
  - intros [= <-]. destruct beats as [beats |]; [now apply beatLoop_inv | exact HP].
Qed.

Lemma onEvents_inv (es : list DeviceEvent) (st st' : State) :
  P st -> onEvents st es = Some st' -> P st'.
Proof.
  revert st. induction es as [| e rest IH]; intros st HP; cbn [onEvents].
  - now intros [= <-].
  - destruct (onEvent st e) as [st1 |] eqn:He; [| discriminate].
    cbn. apply IH. now apply (onEvent_inv st st1 e).
Qed.

End Invariant.

(** ** The handlers never raise *)

Lemma guardedDeckUpdate_total (st : State) (n : Z) (key : string) (value : val) :
  is_Some (guardedDeckUpdate st n key value).
Proof.
  unfold guardedDeckUpdate. destruct (decks st !! n) as [d |] eqn:Hd; [| eauto].
  apply applyRawDeckState_total. rewrite Hd. eauto.
Qed.

Lemma processRawStateChange_total (st : State) (path : string) (value : val) :
  is_Some (_processRawStateChange st path value).
Proof.
  unfold _processRawStateChange.
  destruct (String.eqb path ""); [eauto |].
  destruct (matchEngineDeck path) as [[n key] |]; [apply guardedDeckUpdate_total |].
  destruct (matchMixer path); [eauto |].
  destruct (matchClientDeck path) as [[n key] |]; [apply guardedDeckUpdate_total |].
  repeat (match goal with |- context [if ?b then _ else _] => destruct b end); eauto.
Qed.

Lemma onEvent_total (st : State) (e : DeviceEvent) :
  readable e = true -> is_Some (onEvent st e).
Proof.
  destruct e as [[s |] | [s |] | s | data | beats]; cbn [onEvent readable];
    try discriminate; eauto.
  intros _.
  destruct (String.eqb (msg_name data) ""); [eauto | apply processRawStateChange_total].
Qed.

Lemma onEvent_raises (st : State) (e : DeviceEvent) :
  readable e = false -> onEvent st e = None.
Proof. destruct e as [[s |] | [s |] | s | data | beats]; try discriminate; reflexivity. Qed.

Lemma onEvents_total (es : list DeviceEvent) (st : State) :
  forallb readable es = true -> is_Some (onEvents st es).
Proof.
  revert st. induction es as [| e rest IH]; intros st Hr; cbn [onEvents]; [eauto |].
  cbn [forallb] in Hr. apply andb_true_iff in Hr as [He Hrest].
  destruct (onEvent_total st e He) as [st1 ->]. cbn. now apply IH.
Qed.

Lemma onEvents_readable (es : list DeviceEvent) (st : State) :
  is_Some (onEvents st es) -> forallb readable es = true.
Proof.
  revert st. induction es as [| e rest IH]; intros st; cbn [onEvents forallb];
    [reflexivity |].
  destruct (readable e) eqn:He.
  - destruct (onEvent st e) as [st1 |]; cbn; [apply IH | intros [? [=]]].
  - rewrite (onEvent_raises st e He). cbn. intros [? [=]].
Qed.

(** X1. When the handlers raise: whatever the state tree, the path and the
    value, the path dispatcher returns a state, since the slot test before
    each deck update keeps the deck reducer from reaching an absent deck;
    and a sequence of device events runs to its end exactly when every
    trackLoaded and nowPlaying event in it carries a status, since those
    two handlers read the status for their log line before the merger
    tests it. *)
Theorem events_run_iff_readable (st : State) (path : string) (value : val)
    (es : list DeviceEvent) :
  is_Some (_processRawStateChange st path value)
  /\ (is_Some (onEvents st es) <-> forallb readable es = true).
Proof.
  split; [apply processRawStateChange_total |].
  split; [apply onEvents_readable | apply onEvents_total].
Qed.

(** X2. The deck slots are fixed: no sequence of readable device events
    adds or removes a deck; the state after it has exactly the slots it
    had. *)
Theorem deck_slots_fixed (st : State) (es : list DeviceEvent) :
  forallb readable es = true ->
  exists st', onEvents st es = Some st' /\ dom (decks st') = dom (decks st).
Proof.
  intros Hr.
  destruct (onEvents_total es st Hr) as [st' Hrun]. exists st'. split; [exact Hrun |].
  apply (onEvents_inv (fun s => dom (decks s) = dom (decks st))) with (es := es) (st := st);
    auto.
  intros s n d d' Hd _ Hs. rewrite decks_set_decks, <- Hs.
  apply dom_insert_lookup_L. rewrite Hd. eauto.
Qed.

(** ** Numbers that the reducers store *)

Lemma or_else_truthy (n d : float) :
  Num.truthy d = true -> Num.truthy (Num.or_else n d) = true.
Proof. intros Hd. unfold Num.or_else. now destruct (Num.truthy n) eqn:E. Qed.

Lemma truthy_defined (n : float) : Num.truthy n = true -> PrimFloat.is_nan n = false.
Proof.
  unfold Num.truthy. rewrite negb_true_iff, orb_false_iff. now intros [_ H].
Qed.

Lemma float0_defined (value : val) : PrimFloat.is_nan (float0 value) = false.
Proof.
  destruct (float0_cases value) as [H | ->]; [now apply truthy_defined | reflexivity].
Qed.

Lemma mixerDefined_spec (m : Mixer) :
  mixerDefined m = true
  <-> PrimFloat.is_nan (ch1Fader m) = false /\ PrimFloat.is_nan (ch2Fader m) = false
      /\ PrimFloat.is_nan (ch3Fader m) = false /\ PrimFloat.is_nan (ch4Fader m) = false
      /\ PrimFloat.is_nan (crossfader m) = false.
Proof.
  unfold mixerDefined. rewrite negb_true_iff, !orb_false_iff. tauto.
Qed.

Lemma applyMixerField_defined (key : string) (value : val) (m : Mixer) :
  mixerDefined m = true -> mixerDefined (applyMixerField key value m) = true.
Proof.
  rewrite !mixerDefined_spec. intros (H1 & H2 & H3 & H4 & H5).
  unfold applyMixerField.
  repeat (match goal with |- context [if ?b then _ else _] => destruct b end);
    destruct m; cbn in *; auto using float0_defined.
Qed.


Lemma DeviceStep_counters (dev dev' : Device) :
  DeviceStep dev dev' ->
  Num.truthy (deckCount dev) = true /\ Num.truthy (activeDeck dev) = true ->
  Num.truthy (deckCount dev') = true /\ Num.truthy (activeDeck dev') = true.
Proof.
  intros Hstep [Hc Ha]. destruct Hstep as [v dev | v dev | v dev | v dev | s dev];
    destruct dev; cbn in *; try (split; assumption).
  - split; [now apply or_else_truthy | exact Ha].
  - split; [exact Hc |]. unfold activeDeckOf.
    destruct (Str.includes "Deck" (ToString v)); now apply or_else_truthy.
  - unfold mergeDevice.
    destruct (truthy (prop s "address")), (truthy (prop s "source")); cbn; auto.
Qed.


(** ** The two names of a track *)

(** Skip the steps of [mergeStatus] that leave the field [g] alone. *)
Ltac skip_steps g :=
  rewrite ?(hotcue_fold_frame g) by (intros; reflexivity);
  rewrite ?(when_frame g) by (intros; reflexivity).

(** Case analysis on the tests of a reducer, innermost first. *)
Ltac split_tests :=
  repeat (cbn;
    match goal with
    | H : ?b = _ |- context [if ?b then _ else _] => rewrite H
    | |- context [if ?b then _ else _] =>
        lazymatch b with
        | context [if _ then _ else _] => fail
        | _ => destruct b eqn:?
        end
    end).

Lemma mergeStatus_trackName (s : gmap string val) (d : Deck) :
  trackName (mergeStatus s d)
  = if defined (prop s "title") then or_else (prop s "title") (VStr "") else trackName d.
Proof.
  unfold mergeStatus. cbv zeta. skip_steps (@trackName host).
  rewrite (when_apply trackName). reflexivity.
Qed.

Lemma mergeStatus_songName (s : gmap string val) (d : Deck) :
  songName (mergeStatus s d)
  = if defined (prop s "title") then or_else (prop s "title") (VStr "") else songName d.
Proof.
  unfold mergeStatus. cbv zeta. skip_steps (@songName host).
  rewrite (when_apply songName).
  destruct (defined (prop s "title")); reflexivity.
Qed.

Lemma DeckStep_names (d d' : Deck) :
  DeckStep d d' -> trackName d = songName d -> trackName d' = songName d'.
Proof.
  intros Hstep Hd. destruct Hstep as [f v d | s d | b d].
  - destruct f; unfold applyField; cbv zeta;
      repeat (match goal with
              | |- context [if ?b then _ else _] =>
                  lazymatch b with
                  | context [when] => fail
                  | _ => destruct b
                  end
              end);
      rewrite ?(when_frame trackName), ?(when_frame songName) by (intros; reflexivity);
      destruct d; cbn in *; congruence.
  - rewrite mergeStatus_trackName, mergeStatus_songName.
    now destruct (defined (prop s "title")).
  - unfold applyBeat. cbv zeta.
    match goal with |- context [if ?b then _ else _] => destruct b end;
      destruct d; cbn in *; congruence.
Qed.


(** ** Repeating and reordering raw updates *)

Lemma applyField_SampleRate_nonpos (deck : Deck) (rate : val) :
  Num.gt (Num.or_else (parseInt rate) 0%float) 0%float = false ->
  applyField SampleRate rate deck
  = set_sampleRate (Num.or_else (parseInt rate) 0%float) deck.
Proof. intros H. destruct deck. unfold applyField. cbn. now rewrite H. Qed.

Lemma applyField_idem (f : Field) (value : val) (deck : Deck) :
  applyField f value (applyField f value deck) = applyField f value deck.
Proof.
  destruct f;
    try (destruct deck; unfold applyField, seconds; split_tests; reflexivity).
  destruct (Num.gt (Num.or_else (parseInt value) 0%float) 0%float) eqn:Hpos.
  - rewrite !applyField_SampleRate_pos by assumption.
    destruct deck. cbv -[Num.truthy Num.or_else parseInt PrimFloat.div].
    destruct (Num.truthy trackLengthRaw0), (Num.truthy cuePositionRaw0),
      (Num.truthy loopInRaw0), (Num.truthy loopOutRaw0); reflexivity.
  - rewrite !applyField_SampleRate_nonpos by assumption. destruct deck. reflexivity.
Qed.

(** X6. A raw deck update is idempotent: delivering the same key and value
    to the same deck a second time returns the state the first delivery
    left, for every case of the reducer. *)
Theorem raw_update_idempotent (st st' : State) (n : Z) (key : string) (value : val) :
  _applyRawDeckState st n key value = Some st' ->
  _applyRawDeckState st' n key value = Some st'.
Proof.
  unfold _applyRawDeckState. destruct (fieldOf key) as [f |]; [| now intros [= <-]].
  destruct (decks st !! n) as [d |] eqn:Hd.
  - intros [= <-]. rewrite decks_set_decks, lookup_insert_eq.
    now rewrite set_decks_twice, insert_insert_eq, applyField_idem.
  - destruct (touchesDeck f value) eqn:Ht; [discriminate |].
    intros [= <-]. now rewrite Hd.
Qed.

Lemma applyRawDeckState_unknown (st : State) (n : Z) (key : string) (value : val) :
  fieldOf key = None -> _applyRawDeckState st n key value = Some st.
Proof. intros Hf. unfold _applyRawDeckState. now rewrite Hf. Qed.

(** X7. Raw updates to different decks commute: when two distinct slots
    each hold a deck, both updates return in either order of delivery, and
    the two orders end in the same state. *)
Theorem raw_updates_on_different_decks_commute (st : State) (n m : Z)
    (k1 k2 : string) (v1 v2 : val) :
  n <> m ->
  is_Some (decks st !! n) ->
  is_Some (decks st !! m) ->
  exists s1 s2 st',
    _applyRawDeckState st n k1 v1 = Some s1
    /\ _applyRawDeckState s1 m k2 v2 = Some st'
    /\ _applyRawDeckState st m k2 v2 = Some s2
    /\ _applyRawDeckState s2 n k1 v1 = Some st'.
Proof.
  intros Hnm [d1 H1] [d2 H2].
  destruct (fieldOf k1) as [f1 |] eqn:E1, (fieldOf k2) as [f2 |] eqn:E2.
  - exists (set_decks (<[n := applyField f1 v1 d1]> (decks st)) st),
           (set_decks (<[m := applyField f2 v2 d2]> (decks st)) st),
           (set_decks (<[m := applyField f2 v2 d2]> (<[n := applyField f1 v1 d1]> (decks st)))
              st).
    split; [exact (applyRawDeckState_at st n k1 f1 v1 d1 E1 H1) |].
    split.
    { rewrite (applyRawDeckState_at _ m k2 f2 v2 d2 E2)
        by (rewrite decks_set_decks, lookup_insert_ne by congruence; exact H2).
      now rewrite decks_set_decks, set_decks_twice. }
    split; [exact (applyRawDeckState_at st m k2 f2 v2 d2 E2 H2) |].
    rewrite (applyRawDeckState_at _ n k1 f1 v1 d1 E1)
      by (rewrite decks_set_decks, lookup_insert_ne by congruence; exact H1).
    rewrite decks_set_decks, set_decks_twice. f_equal. f_equal.
    now apply insert_insert_ne.
  - exists (set_decks (<[n := applyField f1 v1 d1]> (decks st)) st), st,
           (set_decks (<[n := applyField f1 v1 d1]> (decks st)) st).
    pose proof (applyRawDeckState_at st n k1 f1 v1 d1 E1 H1) as Hrun.
    repeat split; auto using applyRawDeckState_unknown.
  - exists st, (set_decks (<[m := applyField f2 v2 d2]> (decks st)) st),
           (set_decks (<[m := applyField f2 v2 d2]> (decks st)) st).
    pose proof (applyRawDeckState_at st m k2 f2 v2 d2 E2 H2) as Hrun.
    repeat split; auto using applyRawDeckState_unknown.
  - exists st, st, st. repeat split; auto using applyRawDeckState_unknown.
Qed.

(** ** Engine paths *)

Lemma matchEngineDeck_head (c : ascii) (n : Z) (rest : string) :
  Str.digit c = Some n ->
  matchEngineDeck ("/Engine/Deck" +:+ String c ("/" +:+ rest))
  = Some (n, Str.dot_star rest).
Proof.
  intros Hc. unfold matchEngineDeck.
  cbv [String.append]. cbn -[Str.digit Str.dot_star]. now rewrite Hc.
Qed.

Lemma replace_first_absent (needle repl s : string) :
  Str.includes needle s = false -> Str.replace_first needle repl s = s.
Proof.
  unfold Str.includes. induction s as [| a s IH]; cbn [Str.search Str.replace_first].
  - destruct (Str.strip_prefix needle ""); [discriminate | reflexivity].
  - destruct (Str.strip_prefix needle (String a s)); [discriminate |].
    intros H. now rewrite IH.
Qed.

Lemma engine_dispatch (st : State) (c : ascii) (n : Z) (rest : string) (value : val) :
  Str.digit c = Some n ->
  _processRawStateChange st ("/Engine/Deck" +:+ String c ("/" +:+ rest)) value
  = guardedDeckUpdate st n
      (if String.eqb (Str.dot_star rest) "Track/CurrentBPM" then "TrackBPM"
       else Str.replace_first "Track/" "" (Str.dot_star rest)) value.
Proof.
  intros Hc. unfold _processRawStateChange.
  rewrite (matchEngineDeck_head c n rest Hc). reflexivity.
Qed.

(** X8. The Track/ level of an engine path is flat: for a deck digit and a
    one-line field name other than CurrentBPM that holds no Track/ of its
    own, the path with Track/ before the name and the path without it have
    the same effect on every state. *)
Theorem track_prefix_is_flat (st : State) (c : ascii) (n : Z) (K : string) (value : val) :
  Str.digit c = Some n ->
  Str.dot_star K = K ->
  K <> "CurrentBPM" ->
  Str.includes "Track/" K = false ->
  _processRawStateChange st ("/Engine/Deck" +:+ String c ("/Track/" +:+ K)) value
  = _processRawStateChange st ("/Engine/Deck" +:+ String c ("/" +:+ K)) value.
Proof.
  intros Hc Hline Hbpm Htrack.
  change ("/Track/" +:+ K) with ("/" +:+ ("Track/" +:+ K)).
  rewrite !(engine_dispatch st c n) by exact Hc.
  assert (Hstar : Str.dot_star ("Track/" +:+ K) = "Track/" +:+ K).
  { cbv [String.append]. cbn. now rewrite Hline. }
  rewrite Hstar, Hline.
  assert (E1 : String.eqb ("Track/" +:+ K) "Track/CurrentBPM" = false).
  { cbv [String.append]. cbn. now apply String.eqb_neq. }
  assert (E2 : String.eqb K "Track/CurrentBPM" = false).
  { apply String.eqb_neq. intros ->. discriminate Htrack. }
  rewrite E1, E2, (replace_first_absent "Track/" "" K Htrack). reflexivity.
Qed.

(** X9. An engine path for a slot that holds no deck changes nothing: the
    dispatcher returns the state as it was, whatever follows the digit. *)
Theorem untracked_deck_ignored (st : State) (c : ascii) (n : Z) (rest : string)
    (value : val) :
  Str.digit c = Some n ->
  decks st !! n = None ->
  _processRawStateChange st ("/Engine/Deck" +:+ String c ("/" +:+ rest)) value = Some st.
Proof.
  intros Hc Hd. rewrite (engine_dispatch st c n) by exact Hc.
  unfold guardedDeckUpdate. now rewrite Hd.
Qed.

(** ** What a status update leaves alone *)

Lemma applyPlayerStatus_shape (st : State) (s : gmap string val) (k : Z) (deck : Deck) :
  targetDeck st s = Some (k, deck) ->
  _applyPlayerStatus st (Some s)
  = set_device (mergeDevice s (device st))
      (set_decks (<[k := mergeStatus s deck]> (decks st)) st).
Proof.
  unfold targetDeck, _applyPlayerStatus. intros H.
  destruct (_resolveDeckNumber s) as [n |]; [| discriminate]. cbn in H.
  destruct (Num.to_Z n) as [k' |]; [| discriminate]. cbn in H.
  destruct (decks st !! k') as [d |] eqn:Hd; [| discriminate]. cbn in H.
  injection H as -> ->. reflexivity.
Qed.

Lemma mergeStatus_rawOnly (s : gmap string val) (d : Deck) :
  rawOnly (mergeStatus s d) = rawOnly d.
Proof.
  unfold rawOnly, mergeStatus. cbv zeta.
  skip_steps (@trackLength host). skip_steps (@sampleRate host).
  skip_steps (@songAnalyzed host). skip_steps (@speedRange host).
  skip_steps (@currentKeyIndex host). skip_steps (@currentKey host).
  skip_steps (@keyLock host). skip_steps (@externalScratchWheelTouch host).
  skip_steps (@cuePosition host). skip_steps (@cuePositionRaw host).
  skip_steps (@loopEnableState host). skip_steps (@currentLoopInPosition host).
  skip_steps (@currentLoopOutPosition host). skip_steps (@currentLoopSizeInBeats host).
  skip_steps (@trackLengthRaw host). skip_steps (@loopInRaw host).
  skip_steps (@loopOutRaw host). reflexivity.
Qed.

Lemma mergeDevice_settings (s : gmap string val) (dev : Device) :
  deviceSettings (mergeDevice s dev) = deviceSettings dev.
Proof.
  unfold mergeDevice.
  destruct (truthy (prop s "address")), (truthy (prop s "source")); destruct dev; reflexivity.
Qed.

(** X10. The frame of a status update: it never changes the mixer, nor the
    device fields other than ip and name, nor, on any deck, the fields that
    belong to the raw channel (lengths, sample rate, cue and loop positions,
    key, key lock, touch); and every deck other than the one it names is
    left whole. *)
Theorem status_update_frame (st : State) (status : gmap string val) (m : Z) :
  mixer (_applyPlayerStatus st (Some status)) = mixer st
  /\ deviceSettings (device (_applyPlayerStatus st (Some status)))
     = deviceSettings (device st)
  /\ rawOnly <$> (decks (_applyPlayerStatus st (Some status)) !! m)
     = rawOnly <$> (decks st !! m)
  /\ (forall k deck, targetDeck st status = Some (k, deck) -> m <> k ->
      decks (_applyPlayerStatus st (Some status)) !! m = decks st !! m).
Proof.
  destruct (targetDeck st status) as [[k deck] |] eqn:Ht.
  - rewrite (applyPlayerStatus_shape st status k deck Ht).
    assert (Hk : decks st !! k = Some deck).
    { unfold targetDeck in Ht.
      destruct (_resolveDeckNumber status) as [n |]; [| discriminate]. cbn in Ht.
      destruct (Num.to_Z n) as [k' |]; [| discriminate]. cbn in Ht.
      destruct (decks st !! k') eqn:E; [| discriminate]. cbn in Ht. congruence. }
    repeat split.
    + cbn. apply mergeDevice_settings.
    + change (decks (set_device ?d ?x)) with (decks x). rewrite decks_set_decks.
      destruct (decide (m = k)) as [-> | Hne].
      * rewrite lookup_insert_eq, Hk. cbn. now rewrite mergeStatus_rawOnly.
      * now rewrite lookup_insert_ne by congruence.
    + intros k' deck' [= <- <-] Hne.
      change (decks (set_device ?d ?x)) with (decks x). rewrite decks_set_decks.
      now rewrite lookup_insert_ne by congruence.
  - rewrite (applyPlayerStatus_dropped st status Ht). repeat split.
Qed.

Lemma hotcue_fold_idle (s : gmap string val) (l : list Z) (d : Deck) :
  Forall (fun i => truthy (prop s (hotcueKey i)) = false) l ->
  foldl (hotcueStep s) d l = d.
Proof.
  induction 1 as [| i l Hi _ IH]; cbn [foldl]; [reflexivity |].
  unfold hotcueStep at 2. now rewrite Hi.
Qed.

(** X11. A status update that carries no field is a no-op: when it names a
    deck but every property the merger reads is undefined, no hotcue is
    truthy and it has neither address nor source, the state tree is returned
    exactly as it was. *)
Theorem status_without_fields_is_noop (st : State) (status : gmap string val) :
  Forall (fun key => prop status key = VUndef) statusFields ->
  Forall (fun i => truthy (prop status (hotcueKey i)) = false) (seqZ 1 8) ->
  truthy (prop status "address") = false ->
  truthy (prop status "source") = false ->
  _applyPlayerStatus st (Some status) = st.
Proof.
  intros Hfields Hcues Haddr Hsrc.
  destruct (targetDeck st status) as [[k deck] |] eqn:Ht;
    [| now apply applyPlayerStatus_dropped].
  rewrite (applyPlayerStatus_shape st status k deck Ht).
  assert (Hk : decks st !! k = Some deck).
  { unfold targetDeck in Ht.
    destruct (_resolveDeckNumber status) as [n |]; [| discriminate]. cbn in Ht.
    destruct (Num.to_Z n) as [k' |]; [| discriminate]. cbn in Ht.
    destruct (decks st !! k') eqn:E; [| discriminate]. cbn in Ht. congruence. }
  assert (Hmerge : mergeStatus status deck = deck).
  { unfold mergeStatus. cbv zeta. rewrite (hotcue_fold_idle status _ _ Hcues).
    unfold statusFields in Hfields.
    repeat (apply Forall_cons in Hfields as [?E Hfields]).
    repeat match goal with E : prop status _ = VUndef |- _ => rewrite E; clear E end.
    reflexivity. }
  rewrite Hmerge, (insert_id _ _ _ Hk).
  unfold mergeDevice. rewrite Haddr, Hsrc. now destruct st.
Qed.

(** ** Beat messages *)

Lemma beatLoop_before (beats : list (gmap string val)) (st : State) (idx m : Z) :
  m <= idx -> decks (beatLoop st idx beats) !! m = decks st !! m.
Proof.
  revert st idx. induction beats as [| b rest IH]; intros st idx Hm; cbn [beatLoop];
    [reflexivity |].
  rewrite IH by lia.
  destruct (decks st !! (idx + 1)); [| reflexivity].
  rewrite decks_set_decks. apply lookup_insert_ne. lia.
Qed.

Lemma beatLoop_after (beats : list (gmap string val)) (st : State) (idx m : Z) :
  idx + Z.of_nat (length beats) < m -> decks (beatLoop st idx beats) !! m = decks st !! m.
Proof.
  revert st idx. induction beats as [| b rest IH]; intros st idx Hm; cbn [beatLoop];
    [reflexivity |].
  cbn [length] in Hm. rewrite IH by lia.
  destruct (decks st !! (idx + 1)); [| reflexivity].
  rewrite decks_set_decks. apply lookup_insert_ne. lia.
Qed.

Lemma beatLoop_at (beats : list (gmap string val)) (st : State) (idx : Z) (i : nat)
    (b : gmap string val) (d : Deck) :
  beats !! i = Some b ->
  decks st !! (idx + Z.of_nat i + 1) = Some d ->
  decks (beatLoop st idx beats) !! (idx + Z.of_nat i + 1) = Some (applyBeat b d).
Proof.
  revert st idx i. induction beats as [| b0 rest IH]; intros st idx i Hb Hd;
    [discriminate |].
  cbn [beatLoop]. destruct i as [| i].
  - injection Hb as ->. replace (idx + Z.of_nat 0 + 1) with (idx + 1) in * by lia.
    rewrite beatLoop_before by lia. rewrite Hd, decks_set_decks.
    apply lookup_insert_eq.
  - cbn in Hb.
    replace (idx + Z.of_nat (S i) + 1) with (idx + 1 + Z.of_nat i + 1) in * by lia.
    apply IH; [exact Hb |].
    destruct (decks st !! (idx + 1)); [| exact Hd].
    rewrite decks_set_decks, lookup_insert_ne by lia. exact Hd.
Qed.

Lemma beatLoop_rest (beats : list (gmap string val)) (st : State) (idx : Z) :
  mixer (beatLoop st idx beats) = mixer st /\ device (beatLoop st idx beats) = device st.
Proof.
  revert st idx. induction beats as [| b rest IH]; intros st idx; cbn [beatLoop];
    [split; reflexivity |].
  destruct (IH (match decks st !! (idx + 1) with
                | Some deck => set_decks (<[idx + 1 := applyBeat b deck]> (decks st)) st
                | None => st
                end) (idx + 1)) as [-> ->].
  destruct (decks st !! (idx + 1)); split; reflexivity.
Qed.

(** X12. A beat message reaches deck i+1 with its i-th entry and nothing
    else: that deck takes the entry's beat counters, and its position
    becomes samples / sampleRate only when samples is truthy and the deck's
    sample rate is positive, staying as it was otherwise; decks beyond the
    entries, the mixer and the device are untouched. *)
Theorem beat_message_effect (st : State) (beats : list (gmap string val)) (i : nat)
    (b : gmap string val) (d : Deck) :
  beats !! i = Some b ->
  decks st !! (Z.of_nat i + 1) = Some d ->
  exists d',
    decks (onBeatMessage st (Some beats)) !! (Z.of_nat i + 1) = Some d'
    /\ beatPosition d' = or_else (prop b "beat") (VNum 0%float)
    /\ totalBeats d' = or_else (prop b "totalBeats") (VNum 0%float)
    /\ currentPosition d'
        = (if truthy (prop b "samples") && Num.gt (sampleRate d) 0%float
           then PrimFloat.div (ToNumber (prop b "samples")) (sampleRate d)
           else currentPosition d)
    /\ (forall m, Z.of_nat (length beats) < m ->
        decks (onBeatMessage st (Some beats)) !! m = decks st !! m)
    /\ mixer (onBeatMessage st (Some beats)) = mixer st
    /\ device (onBeatMessage st (Some beats)) = device st.
Proof.
  intros Hb Hd. exists (applyBeat b d). cbn [onBeatMessage].
  split; [exact (beatLoop_at beats st 0 i b d Hb Hd) |].
  destruct (beatLoop_rest beats st 0) as [Hm Hv].
  repeat split; try assumption.
  - unfold applyBeat. cbv zeta.
    match goal with |- context [if ?c then _ else _] => destruct c end;
      destruct d; reflexivity.
  - unfold applyBeat. cbv zeta.
    match goal with |- context [if ?c then _ else _] => destruct c end;
      destruct d; reflexivity.
  - unfold applyBeat. cbv zeta. destruct d. cbn.
    match goal with |- context [if ?c then _ else _] => destruct c end; reflexivity.
  - intros m Hlen. apply beatLoop_after. lia.
Qed.

(** ** Disconnecting one device *)

(** X13. Disconnecting is no reset and is not guarded by the connection
    flag: when the address is the device's ip, [disconnectDevice] clears the
    connection and emits deviceDisconnected and stateUpdate, keeps every
    deck, the mixer and the device's name and ip, and a second call with the
    same address emits the same two events again. *)
Theorem disconnect_keeps_decks_and_repeats (m : ManagerState) (address : string) :
  is_string (ip (device (state m))) address = true ->
  let m1 := fst (disconnectDevice m address) in
  snd (disconnectDevice m address)
  = [deviceDisconnected (name (device (state m))) (VStr address); stateUpdate (state m1)]
  /\ snd (disconnectDevice m1 address) = snd (disconnectDevice m address)
  /\ connected m1 = false
  /\ _connectedIp m1 = VNull
  /\ connectionState (device (state m1)) = "disconnected"
  /\ decks (state m1) = decks (state m)
  /\ mixer (state m1) = mixer (state m)
  /\ name (device (state m1)) = name (device (state m))
  /\ ip (device (state m1)) = ip (device (state m)).
Proof.
  intros Hip. unfold disconnectDevice. rewrite Hip, orb_true_r. cbn.
  destruct m as [inst conn [dks mix dev] demo disc cip]. destruct dev. cbn in *.
  rewrite Hip. repeat split.
Qed.

(** X14. After [stop], disconnecting any non-empty address is silent: it
    emits nothing and the state tree stays the empty tree. *)
Theorem disconnect_after_stop_is_silent (m : ManagerState) (address : string) :
  address <> "" ->
  snd (disconnectDevice (fst (stop m)) address) = []
  /\ state (fst (disconnectDevice (fst (stop m)) address)) = _createEmptyState
  /\ connected (fst (disconnectDevice (fst (stop m)) address)) = false.
Proof.
  intros Ha. destruct address as [| a rest]; [congruence |].
  unfold disconnectDevice. cbn. repeat split.
Qed.

End Handlers.

Section HistoryProperties.

Context {host : Host}.

Implicit Types (devices : list (gmap string val)) (d : gmap string val).

Lemma is_string_spec (v : val) (s : string) : is_string v s = true <-> v = VStr s.
Proof.
  destruct v; cbn; try (split; [discriminate | intros [=]]).
  rewrite String.eqb_eq. split; [now intros -> | now intros [= ->]].
Qed.

Lemma sameDevice_spec (a n : string) d :
  sameDevice a n d <-> prop d "ip" = VStr a /\ prop d "deviceName" = VStr n.
Proof.
  unfold sameDevice. rewrite andb_True, !Is_true_true, !is_string_spec. tauto.
Qed.

Lemma sameDevice_other (a n a' n' : string) d :
  (a, n) <> (a', n') -> sameDevice a n d -> ~ sameDevice a' n' d.
Proof.
  rewrite !sameDevice_spec. intros Hne [Hi Hn] [Hi' Hn']. congruence.
Qed.

Lemma prop_union_l (m1 m2 : gmap string val) (k : string) (v : val) :
  m1 !! k = Some v -> prop (m1 ∪ m2) k = v.
Proof. intros H. unfold prop. now rewrite (lookup_union_Some_l m1 m2 k v H). Qed.

Lemma prop_union_r (m1 m2 : gmap string val) (k : string) :
  m1 !! k = None -> prop (m1 ∪ m2) k = prop m2 k.
Proof. intros H. unfold prop. now rewrite lookup_union_r. Qed.

Lemma historyEntry_lookup (a n : string) (sn sv : val) (now : string) :
  let e := historyEntry a n sn sv now in
  e !! "ip" = Some (VStr a) /\ e !! "deviceName" = Some (VStr n)
  /\ e !! "lastSeen" = Some (VStr now) /\ e !! "autoConnect" = Some (VBool true)
  /\ e !! "firstSeen" = None.
Proof. cbv zeta. unfold historyEntry. repeat split; by simplify_map_eq. Qed.

Lemma sameDevice_merged (a n : string) (sn sv : val) (now : string) d :
  sameDevice a n (historyEntry a n sn sv now ∪ d).
Proof.
  destruct (historyEntry_lookup a n sn sv now) as (Hi & Hn & _).
  apply sameDevice_spec. split; now apply prop_union_l.
Qed.

Lemma sameDevice_fresh (a n : string) (sn sv : val) (now : string) :
  sameDevice a n (<["firstSeen" := VStr now]> (historyEntry a n sn sv now)).
Proof.
  destruct (historyEntry_lookup a n sn sv now) as (Hi & Hn & _).
  apply sameDevice_spec. unfold prop.
  rewrite !lookup_insert_ne by discriminate. now rewrite Hi, Hn.
Qed.

(** Where [upsert] leaves the device: at the index it had, merged over the
    old entry, or at the end with a first-seen stamp. *)
Lemma list_find_upsert devices (a n : string) (sn sv : val) (now : string) :
  list_find (sameDevice a n) (upsert devices a n sn sv now)
  = match list_find (sameDevice a n) devices with
    | Some (idx, old) => Some (idx, historyEntry a n sn sv now ∪ old)
    | None => Some (length devices,
                    <["firstSeen" := VStr now]> (historyEntry a n sn sv now))
    end.
Proof.
  unfold upsert. destruct (list_find (sameDevice a n) devices) as [[idx old] |] eqn:Hf.
  - apply list_find_Some in Hf as (Hl & Hp & Hleast).
    apply list_find_Some. split; [| split].
    + apply list_lookup_insert_eq. eauto using lookup_lt_Some.
    + apply sameDevice_merged.
    + intros j y Hj Hlt. rewrite list_lookup_insert_ne in Hj by lia. eauto.
  - rewrite (list_find_app_r _ _ _ Hf). cbn.
    rewrite decide_True by apply sameDevice_fresh. reflexivity.
Qed.

(** X15. Upsert then ask: after [upsert] of a device, [shouldAutoConnect]
    for that device is true, whatever the history held, an auto-connect
    that had been switched off included. *)
Theorem upsert_enables_auto_connect devices (a n : string) (sn sv : val) (now : string) :
  shouldAutoConnect (upsert devices a n sn sv now) a n = VBool true.
Proof.
  unfold shouldAutoConnect. rewrite list_find_upsert.
  destruct (historyEntry_lookup a n sn sv now) as (_ & _ & _ & Hauto & _).
  destruct (list_find (sameDevice a n) devices) as [[idx old] |].
  - now apply prop_union_l.
  - unfold prop. rewrite lookup_insert_ne by discriminate. now rewrite Hauto.
Qed.

(** X16. The stamps of [upsert]: the device's entry afterwards has lastSeen
    at the clock reading; a device already in the history keeps its
    firstSeen, a new one gets firstSeen equal to lastSeen. *)
Theorem upsert_time_stamps devices (a n : string) (sn sv : val) (now : string) :
  exists idx d,
    list_find (sameDevice a n) (upsert devices a n sn sv now) = Some (idx, d)
    /\ prop d "lastSeen" = VStr now
    /\ prop d "firstSeen"
       = match list_find (sameDevice a n) devices with
         | Some (_, old) => prop old "firstSeen"
         | None => VStr now
         end.
Proof.
  rewrite list_find_upsert.
  destruct (historyEntry_lookup a n sn sv now) as (_ & _ & Hlast & _ & Hfirst).
  destruct (list_find (sameDevice a n) devices) as [[idx old] |]; eexists _, _;
    (split; [reflexivity |]); split.
  - now apply prop_union_l.
  - now apply prop_union_r.
  - unfold prop. rewrite lookup_insert_ne by discriminate. now rewrite Hlast.
  - unfold prop. now rewrite lookup_insert_eq.
Qed.

Lemma filter_insert_same (Q : gmap string val -> Prop) `{!forall x, Decision (Q x)}
    devices (i : nat) (x y : gmap string val) :
  devices !! i = Some x -> (Q x <-> Q y) ->
  length (filter Q (<[i := y]> devices)) = length (filter Q devices).
Proof.
  revert i. induction devices as [| z l IH]; intros i Hi Hxy; [discriminate |].
  destruct i as [| i]; cbn in Hi.
  - injection Hi as ->. change (<[0%nat := y]> (x :: l)) with (y :: l).
    rewrite !filter_cons.
    destruct (decide (Q x)), (decide (Q y)); try reflexivity; exfalso; tauto.
  - change (<[S i := y]> (z :: l)) with (z :: <[i := y]> l).
    rewrite !filter_cons. destruct (decide (Q z)); cbn [length]; now rewrite (IH i).
Qed.

Lemma filter_insert_out (Q : gmap string val -> Prop) `{!forall x, Decision (Q x)}
    devices (i : nat) (x y : gmap string val) :
  devices !! i = Some x -> ~ Q x -> ~ Q y ->
  filter Q (<[i := y]> devices) = filter Q devices.
Proof.
  revert i. induction devices as [| z l IH]; intros i Hi Hx Hy; [discriminate |].
  destruct i as [| i]; cbn in Hi.
  - injection Hi as ->. change (<[0%nat := y]> (x :: l)) with (y :: l).
    rewrite !filter_cons. now rewrite !decide_False by assumption.
  - change (<[S i := y]> (z :: l)) with (z :: <[i := y]> l).
    rewrite !filter_cons. now rewrite (IH i).
Qed.

Lemma filter_none (Q : gmap string val -> Prop) `{!forall x, Decision (Q x)} devices :
  Forall (fun x => ~ Q x) devices -> filter Q devices = [].
Proof.
  induction 1 as [| x l Hx _ IH]; [reflexivity |].
  now rewrite filter_cons, decide_False.
Qed.

(** X17. [upsert] never doubles a device and never touches another one: the
    number of entries for the device is what it was when it was known and 1
    when it was not, and the entries of every other device are the same
    list as before. *)
Theorem upsert_keeps_one_entry devices (a n a' n' : string) (sn sv : val) (now : string) :
  (a, n) <> (a', n') ->
  length (filter (sameDevice a n) (upsert devices a n sn sv now))
  = Nat.max 1 (length (filter (sameDevice a n) devices))
  /\ filter (sameDevice a' n') (upsert devices a n sn sv now)
     = filter (sameDevice a' n') devices.
Proof.
  intros Hne. unfold upsert.
  destruct (list_find (sameDevice a n) devices) as [[idx old] |] eqn:Hf.
  - apply list_find_Some in Hf as (Hl & Hp & _). split.
    + assert (Hiff : sameDevice a n old
                     <-> sameDevice a n (historyEntry a n sn sv now ∪ old))
        by (split; intros _; [apply sameDevice_merged | exact Hp]).
      rewrite (filter_insert_same _ devices idx old _ Hl Hiff).
      assert (Hin : old ∈ filter (sameDevice a n) devices).
      { apply list_elem_of_filter. split; [exact Hp |].
        now apply list_elem_of_lookup_2 with idx. }
      destruct (filter (sameDevice a n) devices); [now apply not_elem_of_nil in Hin |].
      cbn [length]. lia.
    + apply (filter_insert_out _ devices idx old); [exact Hl | |].
      * now apply (sameDevice_other a n).
      * apply (sameDevice_other a n); [exact Hne | apply sameDevice_merged].
  - apply list_find_None in Hf. split.
    + rewrite filter_app, length_app.
      rewrite (filter_none _ devices Hf).
      rewrite filter_cons, decide_True by apply sameDevice_fresh. reflexivity.
    + rewrite filter_app, filter_cons, decide_False, filter_nil, app_nil_r; [reflexivity |].
      apply (sameDevice_other a n); [exact Hne | apply sameDevice_fresh].
Qed.

Lemma filter_filter_kept (Q R : gmap string val -> Prop)
    `{!forall x, Decision (Q x)} `{!forall x, Decision (R x)} devices :
  (forall x, Q x -> R x) -> filter Q (filter R devices) = filter Q devices.
Proof.
  intros HQR. induction devices as [| x l IH]; [reflexivity |].
  rewrite (filter_cons R). destruct (decide (R x)) as [Hr | Hr].
  - rewrite !filter_cons. now rewrite IH.
  - rewrite IH, filter_cons, decide_False; [reflexivity |]. intros Hq. now apply Hr, HQR.
Qed.

Lemma not_removed (a n : string) d :
  negb (sameDevice a n d) <-> ~ sameDevice a n d.
Proof. apply negb_True. Qed.

(** X18. [remove] forgets the device and only the device: afterwards no
    entry for it is left and [shouldAutoConnect] answers false for it, while
    the entries of every other device are the same list as before. *)
Theorem remove_forgets_device devices (a n a' n' : string) :
  (a, n) <> (a', n') ->
  shouldAutoConnect (remove devices a n) a n = VBool false
  /\ filter (sameDevice a n) (remove devices a n) = []
  /\ filter (sameDevice a' n') (remove devices a n) = filter (sameDevice a' n') devices.
Proof.
  intros Hne.
  assert (Hnone : Forall (fun x => ~ sameDevice a n x) (remove devices a n)).
  { apply Forall_forall. intros x Hx. unfold remove in Hx.
    apply list_elem_of_filter in Hx as [Hx _]. now apply not_removed. }
  split; [| split].
  - unfold shouldAutoConnect.
    now rewrite (proj2 (list_find_None (sameDevice a n) (remove devices a n)) Hnone).
  - now apply filter_none.
  - unfold remove. apply filter_filter_kept.
    intros x Hx. apply not_removed. intros Hx'.
    now apply (sameDevice_other a n a' n' x).
Qed.

(** X19. [remove] undoes [upsert]: removing a device right after it was
    upserted leaves the history that removing it alone leaves. *)
Theorem remove_undoes_upsert devices (a n : string) (sn sv : val) (now : string) :
  remove (upsert devices a n sn sv now) a n = remove devices a n.
Proof.
  unfold remove, upsert.
  destruct (list_find (sameDevice a n) devices) as [[idx old] |] eqn:Hf.
  - apply list_find_Some in Hf as (Hl & Hp & _).
    apply (filter_insert_out _ devices idx old); [exact Hl | |].
    + intros H. now apply not_removed in H.
    + intros H. apply not_removed in H. apply H, sameDevice_merged.
  - rewrite filter_app, filter_cons, decide_False, filter_nil, app_nil_r; [reflexivity |].
    intros H. apply not_removed in H. apply H, sameDevice_fresh.
Qed.

Lemma list_find_insert_out (Q : gmap string val -> Prop) `{!forall x, Decision (Q x)}
    devices (i : nat) (x y : gmap string val) :
  devices !! i = Some x -> ~ Q x -> ~ Q y ->
  list_find Q (<[i := y]> devices) = list_find Q devices.
Proof.
  revert i. induction devices as [| z l IH]; intros i Hi Hx Hy; [discriminate |].
  destruct i as [| i]; cbn in Hi.
  - injection Hi as ->. change (<[0%nat := y]> (x :: l)) with (y :: l).
    cbn. now rewrite !decide_False by assumption.
  - change (<[S i := y]> (z :: l)) with (z :: <[i := y]> l).
    cbn. now rewrite (IH i).
Qed.

(** X20. Set then ask: for a device in the history, [shouldAutoConnect]
    after [setAutoConnect] is the value that was set; for a device not in
    it [setAutoConnect] changes nothing; and the answer for every other
    device is what it was. *)
Theorem set_auto_connect_round_trip devices (a n a' n' : string) (value : val) :
  (a, n) <> (a', n') ->
  (is_Some (list_find (sameDevice a n) devices) ->
   shouldAutoConnect (setAutoConnect devices a n value) a n = value)
  /\ (list_find (sameDevice a n) devices = None ->
      setAutoConnect devices a n value = devices)
  /\ shouldAutoConnect (setAutoConnect devices a n value) a' n'
     = shouldAutoConnect devices a' n'.
Proof.
  intros Hne. unfold setAutoConnect, shouldAutoConnect.
  destruct (list_find (sameDevice a n) devices) as [[idx old] |] eqn:Hf.
  - apply list_find_Some in Hf as (Hl & Hp & Hleast).
    assert (Hkept : sameDevice a n (<["autoConnect" := value]> old)).
    { apply sameDevice_spec in Hp as [Hi Hn]. apply sameDevice_spec.
      unfold prop in *. now rewrite !lookup_insert_ne by discriminate. }
    split; [| split].
    + intros _.
      assert (Hfind : list_find (sameDevice a n) (<[idx := <["autoConnect" := value]> old]> devices)
                      = Some (idx, <["autoConnect" := value]> old)).
      { apply list_find_Some. split; [| split].
        - apply list_lookup_insert_eq. eauto using lookup_lt_Some.
        - exact Hkept.
        - intros j y Hj Hlt. rewrite list_lookup_insert_ne in Hj by lia. eauto. }
      rewrite Hfind. unfold prop. now rewrite lookup_insert_eq.
    + discriminate.
    + rewrite (list_find_insert_out _ devices idx old); [reflexivity | exact Hl | |].
      * now apply (sameDevice_other a n).
      * now apply (sameDevice_other a n).
  - split; [| split]; [intros [? [=]] | reflexivity | reflexivity].
Qed.

End HistoryProperties.

Section PageProperties.

Import Frontend.

Lemma chars_app (s t : string) : chars (s +:+ t) = app (chars s) (chars t).
Proof.
  induction s as [| a s IH]; [reflexivity |].
  change (String a s +:+ t) with (String a (s +:+ t)). cbn [chars]. now rewrite IH.
Qed.

Lemma replaceAll_clears (c x : ascii) (r s : string) :
  x ∉ chars r -> (x <> c -> x ∉ chars s) -> x ∉ chars (replaceAll c r s).
Proof.
  intros Hr. induction s as [| a s IH]; intros Hs; cbn [replaceAll].
  - apply not_elem_of_nil.
  - destruct (Ascii.eqb_spec a c) as [-> | Hac].
    + rewrite chars_app, elem_of_app. intros [H | H]; [now apply Hr |].
      revert H. apply IH. intros Hx. specialize (Hs Hx).
      cbn [chars] in Hs. now apply not_elem_of_cons in Hs.
    + cbn [chars]. apply not_elem_of_cons.
      destruct (Ascii.eqb_spec x c) as [-> | Hxc].
      * split; [congruence | apply IH; congruence].
      * specialize (Hs Hxc). cbn [chars] in Hs. apply not_elem_of_cons in Hs as [? ?].
        split; [assumption | now apply IH].
Qed.

Lemma replaceAll_absent (c : ascii) (r s : string) :
  c ∉ chars s -> replaceAll c r s = s.
Proof.
  induction s as [| a s IH]; [reflexivity |]. cbn [chars replaceAll].
  intros [Hne Hs]%not_elem_of_cons.
  destruct (Ascii.eqb_spec a c) as [-> | _]; [congruence | now rewrite IH].
Qed.

(** X21. Escaped text carries no markup: the result of [escapeHtml] holds
    none of the characters less-than, greater-than, double quote and
    apostrophe, whatever the input; and text that holds none of those and
    no ampersand comes back unchanged. *)
Theorem escapeHtml_leaves_no_markup (s : string) (x : ascii) :
  (x ∈ markup -> x ∉ chars (escapeHtml s))
  /\ ("&"%char ∉ chars s -> (forall y, y ∈ markup -> y ∉ chars s) -> escapeHtml s = s).
Proof.
  split.
  - intros Hx. unfold escapeHtml.
    destruct (String.eqb s ""); [apply not_elem_of_nil |].
    unfold markup in Hx.
    repeat (apply elem_of_cons in Hx as [-> | Hx]); [| | | | now apply elem_of_nil in Hx];
      repeat (apply replaceAll_clears;
              [ cbn; rewrite !not_elem_of_cons; repeat split;
                (discriminate || apply not_elem_of_nil)
              | try (intros H; now contradiction H); intros _ ]).
  - intros Hamp Hmark. unfold escapeHtml.
    destruct (String.eqb_spec s "") as [-> | _]; [reflexivity |].
    rewrite (replaceAll_absent "&"%char) by exact Hamp.
    rewrite (replaceAll_absent "<"%char) by (apply Hmark; unfold markup; set_solver).
    rewrite (replaceAll_absent ">"%char) by (apply Hmark; unfold markup; set_solver).
    rewrite (replaceAll_absent dquote) by (apply Hmark; unfold markup; set_solver).
    rewrite (replaceAll_absent "'"%char) by (apply Hmark; unfold markup; set_solver).
    reflexivity.
Qed.

End PageProperties.

(** * The handlers and the history on the examples *)

Section MoreInstances.

#[local] Existing Instance DemoHost.host.

Import Examples.


Lemma deck_slots_fixed_witness :
  exists st',
    onEvents _createEmptyState burst = Some st'
    /\ dom (decks st') = dom (decks _createEmptyState).
Proof. apply (deck_slots_fixed _createEmptyState burst). reflexivity. Defined.



Lemma raw_update_idempotent_witness :
  exists st',
    _applyRawDeckState _createEmptyState 1 "SampleRate" (VNum 44100%float) = Some st'
    /\ _applyRawDeckState st' 1 "SampleRate" (VNum 44100%float) = Some st'.
Proof.
  destruct (applyRawDeckState_total _createEmptyState 1 "SampleRate" (VNum 44100%float)
              (ex_intro _ emptyDeck eq_refl)) as [st' Hrun].
  exists st'. split; [exact Hrun |].
  exact (raw_update_idempotent _createEmptyState st' 1 "SampleRate" (VNum 44100%float) Hrun).
Defined.

Lemma raw_updates_on_different_decks_commute_witness :
  exists s1 s2 st',
    _applyRawDeckState _createEmptyState 1 "Play" (VBool true) = Some s1
    /\ _applyRawDeckState s1 2 "SongName" (VStr "Opus") = Some st'
    /\ _applyRawDeckState _createEmptyState 2 "SongName" (VStr "Opus") = Some s2
    /\ _applyRawDeckState s2 1 "Play" (VBool true) = Some st'.
Proof.
  apply (raw_updates_on_different_decks_commute _createEmptyState 1 2).
  - discriminate.
  - exists emptyDeck. reflexivity.
  - exists emptyDeck. reflexivity.
Defined.

Lemma track_prefix_is_flat_witness :
  _processRawStateChange _createEmptyState "/Engine/Deck1/Track/SongName" (VStr "Opus")
  = _processRawStateChange _createEmptyState "/Engine/Deck1/SongName" (VStr "Opus").
Proof.
  refine (track_prefix_is_flat _createEmptyState "1"%char 1 "SongName" (VStr "Opus")
            eq_refl eq_refl _ eq_refl).
  discriminate.
Defined.

Lemma untracked_deck_ignored_witness :
  _processRawStateChange playing "/Engine/Deck7/Play" (VBool true) = Some playing.
Proof.
  exact (untracked_deck_ignored playing "7"%char 7 "Play" (VBool true) eq_refl eq_refl).
Defined.

Lemma status_without_fields_is_noop_witness :
  _applyPlayerStatus playing (Some bare) = playing.
Proof.
  apply (status_without_fields_is_noop playing bare).
  - unfold statusFields. repeat (apply Forall_cons; split; [reflexivity |]). apply Forall_nil_2.
  - change (seqZ 1 8) with [1; 2; 3; 4; 5; 6; 7; 8].
    repeat (apply Forall_cons; split; [reflexivity |]). apply Forall_nil_2.
  - reflexivity.
  - reflexivity.
Defined.

Lemma beat_message_effect_witness :
  exists d',
    decks (onBeatMessage playing (Some pulse)) !! 3 = Some d'
    /\ beatPosition d' = VNum 9%float
    /\ currentPosition d' = 0%float
    /\ decks (onBeatMessage playing (Some pulse)) !! 4 = decks playing !! 4.
Proof.
  destruct (beat_message_effect playing pulse 2
              {[ "beat" := VNum 9%float; "samples" := VNum 88200%float ]}
              (mergeStatus loaded emptyDeck) eq_refl eq_refl)
    as (d' & Hd & Hbeat & _ & Hpos & Hrest & _ & _).
  exists d'. split; [exact Hd |]. split; [exact Hbeat |]. split; [exact Hpos |].
  apply Hrest. reflexivity.
Defined.

Lemma disconnect_keeps_decks_and_repeats_witness :
  snd (disconnectDevice (fst (disconnectDevice reported "10.0.0.2")) "10.0.0.2")
  = snd (disconnectDevice reported "10.0.0.2")
  /\ decks (state (fst (disconnectDevice reported "10.0.0.2"))) = decks playing.
Proof.
  destruct (disconnect_keeps_decks_and_repeats reported "10.0.0.2" eq_refl)
    as (_ & Hagain & _ & _ & _ & Hdecks & _).
  split; [exact Hagain | exact Hdecks].
Defined.

Lemma disconnect_after_stop_is_silent_witness :
  snd (disconnectDevice (fst (stop session)) "10.0.0.2") = []
  /\ state (fst (disconnectDevice (fst (stop session)) "10.0.0.2")) = _createEmptyState
  /\ connected (fst (disconnectDevice (fst (stop session)) "10.0.0.2")) = false.
Proof. apply (disconnect_after_stop_is_silent session "10.0.0.2"). discriminate. Defined.

Lemma upsert_keeps_one_entry_witness :
  length (filter (sameDevice "10.0.0.3" "SC6000")
            (upsert known "10.0.0.3" "SC6000" (VStr "Engine") VUndef "friday"))
  = Nat.max 1 (length (filter (sameDevice "10.0.0.3" "SC6000") known))
  /\ filter (sameDevice "10.0.0.2" "Prime 4")
        (upsert known "10.0.0.3" "SC6000" (VStr "Engine") VUndef "friday")
     = filter (sameDevice "10.0.0.2" "Prime 4") known.
Proof.
  apply (upsert_keeps_one_entry known "10.0.0.3" "SC6000" "10.0.0.2" "Prime 4").
  discriminate.
Defined.

Lemma remove_forgets_device_witness :
  shouldAutoConnect (remove known "10.0.0.2" "Prime 4") "10.0.0.2" "Prime 4" = VBool false
  /\ filter (sameDevice "10.0.0.2" "Prime 4") (remove known "10.0.0.2" "Prime 4") = []
  /\ filter (sameDevice "10.0.0.3" "SC6000") (remove known "10.0.0.2" "Prime 4")
     = filter (sameDevice "10.0.0.3" "SC6000") known.
Proof.
  apply (remove_forgets_device known "10.0.0.2" "Prime 4" "10.0.0.3" "SC6000").
  discriminate.
Defined.

Lemma set_auto_connect_round_trip_witness :
  shouldAutoConnect (setAutoConnect known "10.0.0.2" "Prime 4" (VBool false))
    "10.0.0.2" "Prime 4" = VBool false
  /\ shouldAutoConnect (setAutoConnect known "10.0.0.2" "Prime 4" (VBool false))
       "10.0.0.3" "SC6000" = shouldAutoConnect known "10.0.0.3" "SC6000".
Proof.
  destruct (set_auto_connect_round_trip known "10.0.0.2" "Prime 4" "10.0.0.3" "SC6000"
              (VBool false)) as (Hset & _ & Hother).
  - discriminate.
  - split; [| exact Hother]. apply Hset.
    exists (0%nat, {[ "ip" := VStr "10.0.0.2"; "deviceName" := VStr "Prime 4";
                      "autoConnect" := VBool true; "firstSeen" := VStr "monday" ]}).
    reflexivity.
Defined.

End MoreInstances.
